(** * xk6-browser automation primitives: keyboard input, call-argument
      marshaling, event waiting and the aborted-navigation invariant.

    The development embeds the Go sources of package [common]
    ([keyboard.go], [helpers.go]) as Rocq functions and proves the
    behavioural properties stated for them.

    Conventions of the embedding:
    - Go [int64] values are [Z]; the only arithmetic applied to them is
      bitwise ([&], [|], [&^] through [^x]), which does not depend on
      the width when written with [Z.land], [Z.lor] and [Z.lnot].
    - Go [string]s are [string]s of bytes.  Where the sources range
      over the runes of a string, the runes are those of Go's UTF-8
      decoding (module [utf8]): a byte that starts no valid sequence
      yields the replacement rune U+FFFD.  A rune is carried as the
      string that [string(r)] gives, its UTF-8 encoding, which is
      also what [WriteRune(r)] appends.
    - Go maps are stdpp [gmap]s, Go maps used as sets are [gset]s.
    - A method with a pointer receiver becomes a function from the
      receiver's state to the new state and the returned error.
    - Go [float64] values are IEEE 754 binary64 data, [spec_float]. *)

From Stdlib Require Import ZArith String Ascii List Bool Lia SpecFloat DecimalString.
From stdpp Require Import base strings gmap list.
Import ListNotations.

Open Scope string_scope.
Open Scope list_scope.

(** ** Errors *)

(** The error values that the embedded functions return.  [Errorf]
    keeps the format string and its string arguments apart instead of
    rendering the message; [Wrapf] is [fmt.Errorf] with a final [%w]
    verb and the error it wraps. *)
Inductive error : Type :=
| ErrWrongExecutionContext
| ErrJSHandleDisposed
| ErrTimedOut
| context_Canceled
| context_DeadlineExceeded
| errorString (msg : string)
| Errorf (format : string) (args : list string)
| Wrapf (format : string) (wrapped : error).

(** ** Package keyboardlayout (types used by the keyboard) *)

Module keyboardlayout.

Definition KeyInput : Type := string.

Record KeyDefinition : Type := mkKeyDefinition {
  Key : string;
  ShiftKey : string;
  Code : string;
  KeyCode : Z;
  ShiftKeyCode : Z;
  Location : Z;
  Text : string
}.

(** The zero value of the struct. *)
Definition zeroKeyDefinition : KeyDefinition :=
  mkKeyDefinition "" "" "" 0 0 0 "".

(** A layout: the set of valid keys and the key table.  The two
    lookup methods [KeyDefinition(key)] and [ShiftKeyDefinition(key)]
    of the Go type are not part of the sources at hand; they are
    carried by the layout as [KeyDefinitionOf] and
    [ShiftKeyDefinition], so that every statement below holds for
    any implementation of them. *)
Record KeyboardLayout : Type := mkKeyboardLayout {
  ValidKeys : gset KeyInput;
  Keys : gmap KeyInput KeyDefinition;
  KeyDefinitionOf : KeyInput -> KeyDefinition * bool;
  ShiftKeyDefinition : KeyInput -> KeyDefinition
}.

(** Assignments to single fields of a [KeyDefinition] variable. *)
Definition setKey (v : string) (d : KeyDefinition) : KeyDefinition :=
  mkKeyDefinition v (ShiftKey d) (Code d) (KeyCode d) (ShiftKeyCode d) (Location d) (Text d).
Definition setCode (v : string) (d : KeyDefinition) : KeyDefinition :=
  mkKeyDefinition (Key d) (ShiftKey d) v (KeyCode d) (ShiftKeyCode d) (Location d) (Text d).
Definition setKeyCode (v : Z) (d : KeyDefinition) : KeyDefinition :=
  mkKeyDefinition (Key d) (ShiftKey d) (Code d) v (ShiftKeyCode d) (Location d) (Text d).
Definition setLocation (v : Z) (d : KeyDefinition) : KeyDefinition :=
  mkKeyDefinition (Key d) (ShiftKey d) (Code d) (KeyCode d) (ShiftKeyCode d) v (Text d).
Definition setText (v : string) (d : KeyDefinition) : KeyDefinition :=
  mkKeyDefinition (Key d) (ShiftKey d) (Code d) (KeyCode d) (ShiftKeyCode d) (Location d) v.

End keyboardlayout.

(** ** Package input of cdproto: the key event command *)

Module input.

Inductive KeyType : Type := KeyDown | KeyUp | KeyRawDown.

(** [input.DispatchKeyEventParams] with the fields the keyboard sets. *)
Record DispatchKeyEventParams : Type := mkDispatchKeyEvent {
  Type_ : KeyType;
  Modifiers : Z;
  Key : string;
  WindowsVirtualKeyCode : Z;
  Code : string;
  Location : Z;
  IsKeypad : bool;
  Text : string;
  UnmodifiedText : string;
  AutoRepeat : bool
}.

(** [input.DispatchKeyEvent(typ)]: all other fields are zero. *)
Definition DispatchKeyEvent (typ : KeyType) : DispatchKeyEventParams :=
  mkDispatchKeyEvent typ 0 "" 0 "" 0 false "" "" false.

Definition WithModifiers (m : Z) (p : DispatchKeyEventParams) :=
  mkDispatchKeyEvent (Type_ p) m (Key p) (WindowsVirtualKeyCode p) (Code p)
    (Location p) (IsKeypad p) (Text p) (UnmodifiedText p) (AutoRepeat p).
Definition WithKey (s : string) (p : DispatchKeyEventParams) :=
  mkDispatchKeyEvent (Type_ p) (Modifiers p) s (WindowsVirtualKeyCode p) (Code p)
    (Location p) (IsKeypad p) (Text p) (UnmodifiedText p) (AutoRepeat p).
Definition WithWindowsVirtualKeyCode (c : Z) (p : DispatchKeyEventParams) :=
  mkDispatchKeyEvent (Type_ p) (Modifiers p) (Key p) c (Code p)
    (Location p) (IsKeypad p) (Text p) (UnmodifiedText p) (AutoRepeat p).
Definition WithCode (s : string) (p : DispatchKeyEventParams) :=
  mkDispatchKeyEvent (Type_ p) (Modifiers p) (Key p) (WindowsVirtualKeyCode p) s
    (Location p) (IsKeypad p) (Text p) (UnmodifiedText p) (AutoRepeat p).
Definition WithLocation (l : Z) (p : DispatchKeyEventParams) :=
  mkDispatchKeyEvent (Type_ p) (Modifiers p) (Key p) (WindowsVirtualKeyCode p) (Code p)
    l (IsKeypad p) (Text p) (UnmodifiedText p) (AutoRepeat p).
Definition WithIsKeypad (b : bool) (p : DispatchKeyEventParams) :=
  mkDispatchKeyEvent (Type_ p) (Modifiers p) (Key p) (WindowsVirtualKeyCode p) (Code p)
    (Location p) b (Text p) (UnmodifiedText p) (AutoRepeat p).
Definition WithText (s : string) (p : DispatchKeyEventParams) :=
  mkDispatchKeyEvent (Type_ p) (Modifiers p) (Key p) (WindowsVirtualKeyCode p) (Code p)
    (Location p) (IsKeypad p) s (UnmodifiedText p) (AutoRepeat p).
Definition WithUnmodifiedText (s : string) (p : DispatchKeyEventParams) :=
  mkDispatchKeyEvent (Type_ p) (Modifiers p) (Key p) (WindowsVirtualKeyCode p) (Code p)
    (Location p) (IsKeypad p) (Text p) s (AutoRepeat p).
Definition WithAutoRepeat (b : bool) (p : DispatchKeyEventParams) :=
  mkDispatchKeyEvent (Type_ p) (Modifiers p) (Key p) (WindowsVirtualKeyCode p) (Code p)
    (Location p) (IsKeypad p) (Text p) (UnmodifiedText p) b.

End input.

(** ** Modifier bits (keyboard.go, [const] block: [1 << iota]) *)

Definition ModifierKeyAlt : Z := Z.shiftl 1 0.
Definition ModifierKeyControl : Z := Z.shiftl 1 1.
Definition ModifierKeyMeta : Z := Z.shiftl 1 2.
Definition ModifierKeyShift : Z := Z.shiftl 1 3.

(** [modifierBitFromKeyName]: the same [switch] in both revisions. *)
Definition modifierBitFromKeyName (key : string) : Z :=
  if String.eqb key "Alt" then ModifierKeyAlt
  else if String.eqb key "Control" then ModifierKeyControl
  else if String.eqb key "Meta" then ModifierKeyMeta
  else if String.eqb key "Shift" then ModifierKeyShift
  else 0.

(** ** Package unicode/utf8: the runes of a string *)

Module utf8.

(** A rune, as the string [string(r)]. *)
Definition rune : Type := string.

(** [string(utf8.RuneError)]: the bytes EF BF BD of U+FFFD. *)
Definition RuneErrorString : rune :=
  String (ascii_of_nat 239) (String (ascii_of_nat 191) (String (ascii_of_nat 189) "")).

(** The table [first] for the bytes from 0x80 on, with the entry of
    [acceptRanges] it points to: the size of the sequence and the
    bounds of its second byte; [None] for the invalid first bytes
    0x80..0xC1 and 0xF5..0xFF. *)
Definition first (b0 : nat) : option (nat * nat * nat) :=
  if (b0 <? 194)%nat then None
  else if (b0 <? 224)%nat then Some (2, 128, 191)%nat
  else if (b0 =? 224)%nat then Some (3, 160, 191)%nat
  else if (b0 <? 237)%nat then Some (3, 128, 191)%nat
  else if (b0 =? 237)%nat then Some (3, 128, 159)%nat
  else if (b0 <? 240)%nat then Some (3, 128, 191)%nat
  else if (b0 =? 240)%nat then Some (4, 144, 191)%nat
  else if (b0 <? 244)%nat then Some (4, 128, 191)%nat
  else if (b0 =? 244)%nat then Some (4, 128, 143)%nat
  else None.

(** [lo <= b && b <= hi] *)
Definition inRange (lo hi : nat) (b : ascii) : bool :=
  (lo <=? nat_of_ascii b)%nat && (nat_of_ascii b <=? hi)%nat.

(** [DecodeRuneInString], the width of the rune at the start of a
    non-empty string: [Some] of the size of a valid sequence, [None]
    where Go returns [(RuneError, 1)] for an encoding error.  Go's
    test [n < sz] for a string that ends within the sequence is made
    here where the missing byte would be read; the answer is
    [(RuneError, 1)] either way. *)
Definition decodeSize (s : string) : option nat :=
  match s with
  | EmptyString => None
  | String s0 t0 =>
      if (nat_of_ascii s0 <? 128)%nat then Some 1%nat
      else
        match first (nat_of_ascii s0) with
        | None => None
        | Some (sz, lo, hi) =>
            match t0 with
            | EmptyString => None
            | String s1 t1 =>
                if negb (inRange lo hi s1) then None
                else if (sz <=? 2)%nat then Some 2%nat
                else
                  match t1 with
                  | EmptyString => None
                  | String s2 t2 =>
                      if negb (inRange 128 191 s2) then None
                      else if (sz <=? 3)%nat then Some 3%nat
                      else
                        match t2 with
                        | EmptyString => None
                        | String s3 _ =>
                            if negb (inRange 128 191 s3) then None
                            else Some 4%nat
                        end
                  end
            end
        end
  end.

(** The rune at the start of a non-empty string and its width. *)
Definition decodeRune (s : string) : rune * nat :=
  match decodeSize s with
  | Some n => (String.substring 0 n s, n)
  | None => (RuneErrorString, 1%nat)
  end.

(** The runes that [for _, r := range s] yields.  Every step consumes
    at least one byte, so a fuel of [len(s)] steps reaches the end. *)
Fixpoint rangeRunes_from (fuel : nat) (s : string) : list rune :=
  match fuel with
  | O => []
  | S fuel' =>
      match s with
      | EmptyString => []
      | _ =>
          let '(r, width) := decodeRune s in
          r :: rangeRunes_from fuel'
                 (String.substring width (String.length s - width) s)
      end
  end.

Definition rangeRunes (s : string) : list rune :=
  rangeRunes_from (String.length s) s.

(** [utf8.ValidString]: no step of the decoding meets an error. *)
Fixpoint validFrom (fuel : nat) (s : string) : bool :=
  match fuel with
  | O => true
  | S fuel' =>
      match s with
      | EmptyString => true
      | _ =>
          match decodeSize s with
          | Some n => validFrom fuel' (String.substring n (String.length s - n) s)
          | None => false
          end
      end
  end.

Definition ValidString (s : string) : bool := validFrom (String.length s) s.

End utf8.

(** ** Combo-string splitting (keyboard.go, [split]) *)

(** The [for _, r := range keys] loop over the runes of [keys], with
    the slice [kk] and the builder [s] as accumulators; [s.WriteRune(r)]
    appends the encoding of the rune, and the last line appends the
    builder. *)
Fixpoint split_loop (kk : list string) (s : string) (runes : list utf8.rune)
    : list string :=
  match runes with
  | [] => kk ++ [s]
  | r :: runes' =>
      if String.eqb r "+" && (0 <? String.length s)%nat
      then split_loop (kk ++ [s]) "" runes'
      else split_loop kk (s +:+ r) runes'
  end.

Definition split (keys : string) : list string :=
  split_loop [] "" (utf8.rangeRunes keys).

(** ** Keyboard, earlier revision (keyboard.go, first document) *)

Module Keyboard0.
Import keyboardlayout.

(** The keyboard's state.  [session] is the list of the commands
    handed to the session so far, oldest first. *)
Record Keyboard : Type := mkKeyboard {
  session : list input.DispatchKeyEventParams;
  modifiers : Z;
  pressedKeys : gmap Z bool;
  layoutName : string
}.

Definition NewKeyboard : Keyboard := mkKeyboard [] 0 ∅ "us".

Section WithCollaborators.

(** The layout registry of package keyboardlayout. *)
Variable GetKeyboardLayout : string -> KeyboardLayout.

(** [action.Do(cdp.WithExecutor(k.ctx, k.session))]: the answer of
    the session to a command, [None] for success. *)
Variable Do : input.DispatchKeyEventParams -> option error.

(** [for key, def := range layout.Keys]: Go leaves the order
    unspecified; the entries are visited in the order of
    [map_to_list]. *)
Definition rangeKeys (l : KeyboardLayout) : list (KeyInput * KeyDefinition) :=
  map_to_list (Keys l).

Definition keyDefinitionFromKey (k : Keyboard) (keyString : KeyInput) : KeyDefinition :=
  let layout := GetKeyboardLayout (layoutName k) in
  let '(srcKeyDef, ok) :=
    match Keys layout !! keyString with
    | Some d => (d, true)
    | None => (zeroKeyDefinition, false)
    end in
  (* Find based on key value instead of code *)
  let '(keyString, srcKeyDef, ok) :=
    if negb ok then
      fold_left (fun '(keyString, srcKeyDef, ok) '(key, def) =>
                   if negb (String.eqb (Key def) keyString)
                   then (keyString, srcKeyDef, ok)
                   else (key, def, true))
                (rangeKeys layout) (keyString, srcKeyDef, ok)
    else (keyString, srcKeyDef, ok) in
  (* try to find with the shift key value *)
  let shift := Z.land (modifiers k) ModifierKeyShift in
  let '(keyString, srcKeyDef, shift) :=
    if negb ok then
      let '(keyString, srcKeyDef) :=
        fold_left (fun '(keyString, srcKeyDef) '(key, def) =>
                     if negb (String.eqb (ShiftKey def) keyString)
                     then (keyString, srcKeyDef)
                     else (key, def))
                  (rangeKeys layout) (keyString, srcKeyDef) in
      (keyString, srcKeyDef, Z.lor (modifiers k) ModifierKeyShift)
    else (keyString, srcKeyDef, shift) in
  let keyDef := zeroKeyDefinition in
  let keyDef := if negb (String.eqb (Key srcKeyDef) "")
                then setKey (Key srcKeyDef) keyDef else keyDef in
  let keyDef := if negb (shift =? 0)%Z && negb (String.eqb (ShiftKey srcKeyDef) "")
                then setKey (ShiftKey srcKeyDef) keyDef else keyDef in
  let keyDef := if negb (KeyCode srcKeyDef =? 0)%Z
                then setKeyCode (KeyCode srcKeyDef) keyDef else keyDef in
  let keyDef := if negb (shift =? 0)%Z && negb (ShiftKeyCode srcKeyDef =? 0)%Z
                then setKeyCode (ShiftKeyCode srcKeyDef) keyDef else keyDef in
  let keyDef := if negb (KeyCode srcKeyDef =? 0)%Z
                then setKeyCode (KeyCode srcKeyDef) keyDef else keyDef in
  let keyDef := if negb (String.eqb keyString "")
                then setCode keyString keyDef else keyDef in
  let keyDef := if negb (Location srcKeyDef =? 0)%Z
                then setLocation (Location srcKeyDef) keyDef else keyDef in
  let keyDef := if (String.length (Key srcKeyDef) =? 1)%nat
                then setText (Key srcKeyDef) keyDef else keyDef in
  let keyDef := if negb (String.eqb (Text srcKeyDef) "")
                then setText (Text srcKeyDef) keyDef else keyDef in
  let keyDef := if negb (shift =? 0)%Z && negb (String.eqb (ShiftKey srcKeyDef) "")
                then setText (ShiftKey srcKeyDef) keyDef else keyDef in
  (* If any modifiers besides shift are pressed, no text should be sent *)
  let keyDef := if negb (Z.land (modifiers k) (Z.lnot ModifierKeyShift) =? 0)%Z
                then setText "" keyDef else keyDef in
  keyDef.

Definition down (key : string) (k : Keyboard) : Keyboard * option error :=
  let keyInput : KeyInput := key in
  let layout := GetKeyboardLayout (layoutName k) in
  if negb (bool_decide (keyInput ∈ ValidKeys layout)) then
    (k, Some (Errorf "%q is not a valid key for layout %q" [key; layoutName k]))
  else
    let keyDef := keyDefinitionFromKey k keyInput in
    let modifiers' :=
      Z.land (modifiers k) (Z.lnot (modifierBitFromKeyName (Key keyDef))) in
    let text := Text keyDef in
    let autoRepeat := bool_decide (is_Some (pressedKeys k !! KeyCode keyDef)) in
    let pressedKeys' := <[KeyCode keyDef := true]> (pressedKeys k) in
    let keyType := if String.eqb text "" then input.KeyRawDown else input.KeyDown in
    let action :=
      input.WithAutoRepeat autoRepeat
        (input.WithUnmodifiedText text
          (input.WithText text
            (input.WithIsKeypad (Location keyDef =? 3)%Z
              (input.WithLocation (Location keyDef)
                (input.WithCode (Code keyDef)
                  (input.WithWindowsVirtualKeyCode (KeyCode keyDef)
                    (input.WithKey (Key keyDef)
                      (input.WithModifiers modifiers'
                        (input.DispatchKeyEvent keyType))))))))) in
    let k' := mkKeyboard (session k ++ [action]) modifiers' pressedKeys' (layoutName k) in
    match Do action with
    | Some err => (k', Some (Wrapf "unable to key down: %w" err))
    | None => (k', None)
    end.

Definition up (key : string) (k : Keyboard) : Keyboard * option error :=
  let keyInput : KeyInput := key in
  let layout := GetKeyboardLayout (layoutName k) in
  if negb (bool_decide (keyInput ∈ ValidKeys layout)) then
    (k, Some (Errorf "'%s' is not a valid key for layout '%s'" [key; layoutName k]))
  else
    let keyDef := keyDefinitionFromKey k keyInput in
    let modifiers' :=
      Z.land (modifiers k) (Z.lnot (modifierBitFromKeyName (Key keyDef))) in
    let pressedKeys' := delete (KeyCode keyDef) (pressedKeys k) in
    let action :=
      input.WithLocation (Location keyDef)
        (input.WithCode (Code keyDef)
          (input.WithWindowsVirtualKeyCode (KeyCode keyDef)
            (input.WithKey (Key keyDef)
              (input.WithModifiers modifiers'
                (input.DispatchKeyEvent input.KeyUp))))) in
    let k' := mkKeyboard (session k ++ [action]) modifiers' pressedKeys' (layoutName k) in
    match Do action with
    | Some err => (k', Some (Wrapf "unable to key up: %w" err))
    | None => (k', None)
    end.

End WithCollaborators.

End Keyboard0.

(** ** Keyboard, later revision (keyboard.go, second document) *)

Module Keyboard.
Import keyboardlayout.

(** [KeyboardOptions]: the delay in milliseconds. *)
Record KeyboardOptions : Type := mkKeyboardOptions { Delay : Z }.

(** The case that the [select] of a delay takes: the keyboard's
    context is done first, or the timer fires first. *)
Inductive delaySelect : Type := ctxDone | timerC.

(** The keyboard's state.  [session] is the list of the commands
    handed to the session so far, oldest first. *)
Record Keyboard : Type := mkKeyboard {
  session : list input.DispatchKeyEventParams;
  modifiers : Z;
  pressedKeys : gmap Z bool;
  layoutName : string;
  layout : KeyboardLayout
}.

Definition isKeyX (key : string) : bool :=
  bool_decide (key ∈
    [ "KeyA"; "KeyB"; "KeyC"; "KeyD"; "KeyE"; "KeyF"; "KeyG"; "KeyH"; "KeyI";
      "KeyJ"; "KeyK"; "KeyL"; "KeyM"; "KeyN"; "KeyO"; "KeyP"; "KeyQ"; "KeyR";
      "KeyS"; "KeyT"; "KeyU"; "KeyV"; "KeyW"; "KeyX"; "KeyY"; "KeyZ" ]).

Definition keyDefinitionFromKey (k : Keyboard) (key : KeyInput) : KeyDefinition :=
  let shift := Z.land (modifiers k) ModifierKeyShift in
  (* Find directly from the keyboard layout *)
  let '(srcKeyDef, ok) :=
    match Keys (layout k) !! key with
    | Some d => (d, true)
    | None => (zeroKeyDefinition, false)
    end in
  (* Try to find based on key value instead of code *)
  let '(srcKeyDef, ok) :=
    if negb ok then KeyDefinitionOf (layout k) key else (srcKeyDef, ok) in
  (* Try to find with the shift key value *)
  let '(srcKeyDef, shift, foundInShift) :=
    if negb ok
    then (ShiftKeyDefinition (layout k) key,
          Z.lor (modifiers k) ModifierKeyShift, true)
    else (srcKeyDef, shift, false) in
  let keyDef := zeroKeyDefinition in
  let keyDef := if negb (String.eqb (Key srcKeyDef) "")
                then setKey (Key srcKeyDef) keyDef else keyDef in
  let keyDef := if (String.length (Key srcKeyDef) =? 1)%nat
                then setText (Key srcKeyDef) keyDef else keyDef in
  let keyDef := if negb (shift =? 0)%Z && negb (ShiftKeyCode srcKeyDef =? 0)%Z
                then setKeyCode (ShiftKeyCode srcKeyDef) keyDef else keyDef in
  let keyDef := if negb (KeyCode srcKeyDef =? 0)%Z
                then setKeyCode (KeyCode srcKeyDef) keyDef else keyDef in
  let keyDef := if negb (String.eqb key "")
                then setCode key keyDef else keyDef in
  let keyDef := if negb (Location srcKeyDef =? 0)%Z
                then setLocation (Location srcKeyDef) keyDef else keyDef in
  let keyDef := if negb (String.eqb (Text srcKeyDef) "")
                then setText (Text srcKeyDef) keyDef else keyDef in
  let isKeyXOrOnShiftLayerAndShiftUsed :=
    (isKeyX key || foundInShift)
    && negb (shift =? 0)%Z
    && negb (String.eqb (ShiftKey srcKeyDef) "") in
  let keyDef := if isKeyXOrOnShiftLayerAndShiftUsed
                then setText (ShiftKey srcKeyDef) (setKey (ShiftKey srcKeyDef) keyDef)
                else keyDef in
  (* If any modifiers besides shift are pressed, no text should be sent *)
  let keyDef := if negb (Z.land (modifiers k) (Z.lnot ModifierKeyShift) =? 0)%Z
                then setText "" keyDef else keyDef in
  keyDef.

Section WithSession.

(** [action.Do(cdp.WithExecutor(k.ctx, k.session))]: the answer of
    the session to a command, [None] for success. *)
Variable Do : input.DispatchKeyEventParams -> option error.

Definition down (key : string) (k : Keyboard) : Keyboard * option error :=
  let keyInput : KeyInput := key in
  if negb (bool_decide (keyInput ∈ ValidKeys (layout k))) then
    (k, Some (Errorf "%q is not a valid key for layout %q" [key; layoutName k]))
  else
    let keyDef := keyDefinitionFromKey k keyInput in
    let modifiers' := Z.lor (modifiers k) (modifierBitFromKeyName (Key keyDef)) in
    let text := Text keyDef in
    let autoRepeat := bool_decide (is_Some (pressedKeys k !! KeyCode keyDef)) in
    let pressedKeys' := <[KeyCode keyDef := true]> (pressedKeys k) in
    let keyType := if String.eqb text "" then input.KeyRawDown else input.KeyDown in
    let action :=
      input.WithAutoRepeat autoRepeat
        (input.WithUnmodifiedText text
          (input.WithText text
            (input.WithIsKeypad (Location keyDef =? 3)%Z
              (input.WithLocation (Location keyDef)
                (input.WithCode (Code keyDef)
                  (input.WithWindowsVirtualKeyCode (KeyCode keyDef)
                    (input.WithKey (Key keyDef)
                      (input.WithModifiers modifiers'
                        (input.DispatchKeyEvent keyType))))))))) in
    let k' := mkKeyboard (session k ++ [action]) modifiers' pressedKeys'
                (layoutName k) (layout k) in
    match Do action with
    | Some err => (k', Some (Wrapf "cannot execute dispatch key event down: %w" err))
    | None => (k', None)
    end.

Definition up (key : string) (k : Keyboard) : Keyboard * option error :=
  let keyInput : KeyInput := key in
  if negb (bool_decide (keyInput ∈ ValidKeys (layout k))) then
    (k, Some (Errorf "'%s' is not a valid key for layout '%s'" [key; layoutName k]))
  else
    let keyDef := keyDefinitionFromKey k keyInput in
    let modifiers' :=
      Z.land (modifiers k) (Z.lnot (modifierBitFromKeyName (Key keyDef))) in
    let pressedKeys' := delete (KeyCode keyDef) (pressedKeys k) in
    let action :=
      input.WithLocation (Location keyDef)
        (input.WithCode (Code keyDef)
          (input.WithWindowsVirtualKeyCode (KeyCode keyDef)
            (input.WithKey (Key keyDef)
              (input.WithModifiers modifiers'
                (input.DispatchKeyEvent input.KeyUp))))) in
    let k' := mkKeyboard (session k ++ [action]) modifiers' pressedKeys'
                (layoutName k) (layout k) in
    match Do action with
    | Some err => (k', Some (Wrapf "cannot execute dispatch key event up: %w" err))
    | None => (k', None)
    end.

(** [for _, key := range kk { if err := k.down(key); ... }] *)
Fixpoint comboPress_downs (kk : list string) (k : Keyboard) : Keyboard * option error :=
  match kk with
  | [] => (k, None)
  | key :: kk' =>
      match down key k with
      | (k', Some err) => (k', Some (Wrapf "cannot do key down: %w" err))
      | (k', None) => comboPress_downs kk' k'
      end
  end.

(** [for i := range kk { key := kk[len(kk)-i-1]; ... k.up(key) ... }]:
    [ixs] holds the values of [i] still to run. *)
Fixpoint comboPress_ups (kk : list string) (ixs : list nat) (k : Keyboard)
    : Keyboard * option error :=
  match ixs with
  | [] => (k, None)
  | i :: ixs' =>
      let key := nth (length kk - i - 1) kk "" in
      match up key k with
      | (k', Some err) => (k', Some (Wrapf "cannot do key up: %w" err))
      | (k', None) => comboPress_ups kk ixs' k'
      end
  end.

Definition comboPress (keys : string) (opts : KeyboardOptions) (sel : delaySelect)
    (k : Keyboard) : Keyboard * option error :=
  if negb (Delay opts =? 0)%Z && match sel with ctxDone => true | timerC => false end
  then (k, Some context_Canceled)
  else
    let kk := split keys in
    match comboPress_downs kk k with
    | (k', Some err) => (k', Some err)
    | (k', None) => comboPress_ups kk (seq 0 (length kk)) k'
    end.

End WithSession.

End Keyboard.

(** ** Argument marshaling (helpers.go) *)

Module cdpruntime.

(** [runtime.RemoteObject], with the fields read by the marshaler.
    [Value] is the raw JSON text. *)
Record RemoteObject : Type := mkRemoteObject {
  roUnserializableValue : string;
  roObjectID : string;
  roValue : string
}.

(** [runtime.CallArgument]: a struct with three optional fields,
    empty when not set. *)
Record CallArgument : Type := mkCallArgument {
  Value : string;
  UnserializableValue : string;
  ObjectID : string
}.

End cdpruntime.

Module math.

Definition MaxInt32 : Z := 2147483647.

(** [math.Float64frombits]: the binary64 datum with the given bit
    pattern (sign bit 63, exponent bits 62..52, fraction bits 51..0). *)
Definition Float64frombits (b : Z) : spec_float :=
  let sign := Z.testbit b 63 in
  let e := Z.land (Z.shiftr b 52) 2047 in
  let m := Z.land b (Z.ones 52) in
  if (e =? 0)%Z then
    match m with
    | Zpos p => S754_finite sign p (-1074)
    | _ => S754_zero sign
    end
  else if (e =? 2047)%Z then
    if (m =? 0)%Z then S754_infinity sign else S754_nan
  else
    match (m + Z.shiftl 1 52)%Z with
    | Zpos p => S754_finite sign p (e - 1075)
    | _ => S754_nan
    end.

(** [math.Inf(sign)]: positive infinity if [sign >= 0], else negative. *)
Definition Inf (sign : Z) : spec_float :=
  if (0 <=? sign)%Z then S754_infinity false else S754_infinity true.

Definition IsNaN (f : spec_float) : bool := negb (SFeqb f f).

End math.

Module helpers.
Import cdpruntime.

(** [*ExecutionContext]: pointers are compared by address. *)
Definition ExecutionContextPtr : Type := positive.

Record BaseJSHandle : Type := mkBaseJSHandle {
  execCtx : ExecutionContextPtr;
  disposed : bool;
  remoteObject : RemoteObject
}.

(** [ElementHandle] embeds a [BaseJSHandle]. *)
Record ElementHandle : Type := mkElementHandle {
  BaseJSHandle_ : BaseJSHandle
}.

Definition convertBaseJSHandleTypes (execCtx' : ExecutionContextPtr)
    (objHandle : BaseJSHandle) : option CallArgument * option error :=
  if negb (Pos.eqb (execCtx objHandle) execCtx') then
    (None, Some ErrWrongExecutionContext)
  else if disposed objHandle then
    (None, Some ErrJSHandleDisposed)
  else if negb (String.eqb (roUnserializableValue (remoteObject objHandle)) "") then
    (Some (mkCallArgument "" (roUnserializableValue (remoteObject objHandle)) ""), None)
  else if String.eqb (roObjectID (remoteObject objHandle)) "" then
    (Some (mkCallArgument (roValue (remoteObject objHandle)) "" ""), None)
  else
    (Some (mkCallArgument "" "" (roObjectID (remoteObject objHandle))), None).

Section WithRuntime.

(** The exported Go values of the scripting runtime that are neither
    [int64], [float64] nor handles. *)
Variable Exported : Type.

(** [encoding/json.Marshal] on the three kinds of values it is
    applied to: the JSON text and the error. *)
Variable json_Marshal_int64 : Z -> string * option error.
Variable json_Marshal_float64 : spec_float -> string * option error.
Variable json_Marshal : Exported -> string * option error.

(** A [goja.Value], by its [ExportType()]. *)
Inductive Value : Type :=
| valueInt (i : Z)
| valueFloat (f : spec_float)
| valueElementHandle (h : ElementHandle)
| valueBaseJSHandle (h : BaseJSHandle)
| valueOther (x : Exported).

(** [fmt.Sprintf("%dn", i)] *)
Definition Sprintf_dn (i : Z) : string :=
  NilEmpty.string_of_int (Z.to_int i) +:+ "n".

Definition convertArgument (execCtx' : ExecutionContextPtr) (arg : Value)
    : option CallArgument * option error :=
  match arg with
  | valueInt i =>
      if (math.MaxInt32 <? i)%Z then
        (Some (mkCallArgument "" (Sprintf_dn i) ""), None)
      else
        let '(b, err) := json_Marshal_int64 i in
        (Some (mkCallArgument b "" ""), err)
  | valueFloat f =>
      if SFeqb f (math.Float64frombits (Z.lor 0 (Z.shiftl 1 63))) then
        (Some (mkCallArgument "" "-0" ""), None)
      else if SFeqb f (math.Inf 0) then
        (Some (mkCallArgument "" "Infinity" ""), None)
      else if SFeqb f (math.Inf (-1)) then
        (Some (mkCallArgument "" "-Infinity" ""), None)
      else if math.IsNaN f then
        (Some (mkCallArgument "" "NaN" ""), None)
      else
        let '(b, err) := json_Marshal_float64 f in
        (Some (mkCallArgument b "" ""), err)
  | valueElementHandle objHandle =>
      convertBaseJSHandleTypes execCtx' (BaseJSHandle_ objHandle)
  | valueBaseJSHandle objHandle =>
      convertBaseJSHandleTypes execCtx' objHandle
  | valueOther x =>
      let '(b, err) := json_Marshal x in
      (Some (mkCallArgument b "" ""), err)
  end.

End WithRuntime.

End helpers.

(** ** Calls with a timeout and event waiting (helpers.go) *)

Module waiting.

Section WithValues.

(** The dynamic values behind Go's [interface{}] / [any]; [None] is
    the nil interface. *)
Variable T : Type.
Definition any : Type := option T.

(** *** callApiWithTimeout *)

(** What the [select] of [callApiWithTimeout] can observe, listed
    in the order in which it happens: the surrounding context is
    done and reports [err] ([context.Canceled] after a cancel,
    [context.DeadlineExceeded] after a deadline of its own), the
    timer of [context.WithTimeout] fires, or the inner function
    sends on one of its two channels. *)
Inductive apiOccurrence : Type :=
| parentDone (err : error)
| timeoutExpired
| resultSent (v : any)
| errSent (e : error).

(** [apiCtx.Err() == context.Canceled] *)
Definition isCanceled (e : error) : bool :=
  match e with context_Canceled => true | _ => false end.

(** The case [<-apiCtx.Done()] of the [select], given [apiCtx.Err()]. *)
Definition apiCtxDone (ctxErr : error) : any * option error :=
  (None, if isCanceled ctxErr then Some ErrTimedOut else None).

(** The function returns at the first occurrence that one of the
    cases of its [select] accepts; the timer exists only when
    [timeout > 0].  [None]: the [select] is still blocked when the
    list ends. *)
Fixpoint callApiWithTimeout (timeout : Z) (occ : list apiOccurrence)
    : option (any * option error) :=
  match occ with
  | [] => None
  | parentDone e :: _ => Some (apiCtxDone e)
  | timeoutExpired :: occ' =>
      if (0 <? timeout)%Z then Some (apiCtxDone context_DeadlineExceeded)
      else callApiWithTimeout timeout occ'
  | resultSent v :: _ => Some (v, None)
  | errSent e :: _ => Some (None, Some e)
  end.

(** *** waitForEvent *)

Record Event : Type := mkEvent { typ : string; data : any }.

Fixpoint stringSliceContains (s : list string) (e : string) : bool :=
  match s with
  | [] => false
  | a :: s' => if String.eqb a e then true else stringSliceContains s' e
  end.

(** What the goroutine of [createWaitForEventHandler] does with the
    channel [ch] on one event received from [chEvHandler]: nothing
    (it loops), a send followed by [close(ch)], or [close(ch)]
    alone.  In the last two cases it cancels its context and
    returns. *)
Inductive handlerAction : Type :=
| keepListening
| sendAndClose (v : any)
| closeOnly.

Definition handleEvent (events : list string) (predicateFn : option (any -> bool))
    (ev : Event) : handlerAction :=
  if stringSliceContains events (typ ev) then
    match predicateFn with
    | Some p => if p (data ev) then sendAndClose (data ev) else closeOnly
    | None => sendAndClose None
    end
  else keepListening.

(** What happens while [waitForEvent] is blocked in its [select],
    in order: the emitter hands an event to the handler, the
    caller's context is done, or [time.After(timeout)] fires. *)
Inductive occurrence : Type :=
| emitted (ev : Event)
| ctxDone
| timeAfter.

(** The values that the handler goroutine sends on [ch].  The
    goroutine stops at the first event it acts on, and when its
    context is cancelled: by the caller's context, or by the
    deferred [evCancelFn] when [waitForEvent] returns. *)
Fixpoint handlerSends (events : list string) (predicateFn : option (any -> bool))
    (occ : list occurrence) : list any :=
  match occ with
  | emitted ev :: occ' =>
      match handleEvent events predicateFn ev with
      | keepListening => handlerSends events predicateFn occ'
      | sendAndClose v => [v]
      | closeOnly => []
      end
  | _ => []
  end.

(** [waitForEvent]: the result and the error, [None] while the
    [select] is still blocked when the list ends.  A receive from
    the closed channel yields the zero value, nil. *)
Fixpoint waitForEvent (events : list string) (predicateFn : option (any -> bool))
    (occ : list occurrence) : option (any * option error) :=
  match occ with
  | [] => None
  | ctxDone :: _ => Some (None, None)
  | timeAfter :: _ => Some (None, Some ErrTimedOut)
  | emitted ev :: occ' =>
      match handleEvent events predicateFn ev with
      | keepListening => waitForEvent events predicateFn occ'
      | sendAndClose evData => Some (evData, None)
      | closeOnly => Some (None, None)
      end
  end.

(** The reading of the wait under which an event qualifies when its
    type is in the set and the predicate, if any, accepts its
    payload; the wait skips every other event and returns the
    payload of the first qualifying one. *)
Definition qualifies (events : list string) (predicateFn : option (any -> bool))
    (ev : Event) : bool :=
  stringSliceContains events (typ ev)
  && match predicateFn with Some p => p (data ev) | None => true end.

Fixpoint waitForEvent_stated (events : list string) (predicateFn : option (any -> bool))
    (occ : list occurrence) : option (any * option error) :=
  match occ with
  | [] => None
  | ctxDone :: _ => Some (None, None)
  | timeAfter :: _ => Some (None, Some ErrTimedOut)
  | emitted ev :: occ' =>
      if qualifies events predicateFn ev then Some (data ev, None)
      else waitForEvent_stated events predicateFn occ'
  end.

(** No occurrence of the list ends the wait: no event of a type in
    the set, no cancellation, no timeout. *)
Fixpoint quiet (events : list string) (occ : list occurrence) : bool :=
  match occ with
  | [] => true
  | emitted ev :: occ' => negb (stringSliceContains events (typ ev)) && quiet events occ'
  | _ => false
  end.

End WithValues.

Arguments parentDone {T} err.
Arguments timeoutExpired {T}.
Arguments resultSent {T} v.
Arguments errSent {T} e.
Arguments mkEvent {T} typ data.
Arguments typ {T} e.
Arguments data {T} e.
Arguments emitted {T} ev.
Arguments ctxDone {T}.
Arguments timeAfter {T}.
Arguments keepListening {T}.
Arguments sendAndClose {T} v.
Arguments closeOnly {T}.
Arguments callApiWithTimeout {T} timeout occ.
Arguments handleEvent {T} events predicateFn ev.
Arguments handlerSends {T} events predicateFn occ.
Arguments waitForEvent {T} events predicateFn occ.
Arguments waitForEvent_stated {T} events predicateFn occ.
Arguments qualifies {T} events predicateFn ev.
Arguments quiet {T} events occ.
Arguments apiCtxDone {T} ctxErr.

End waiting.

(** ** Aborted navigation (frame manager) *)

Module frames.

Definition FrameID : Type := string.

Record DocumentInfo : Type := mkDocumentInfo { documentID : string }.

(** [NavigationEvent]: the pointer [newDocument] may be nil. *)
Record NavigationEvent : Type := mkNavigationEvent {
  newDocument : option DocumentInfo;
  err : string
}.

Record Frame : Type := mkFrame {
  id : FrameID;
  pendingDocument : option DocumentInfo
}.

Record FrameManager : Type := mkFrameManager {
  frames : gmap FrameID Frame
}.

(** Modelled from the spec: [frameAbortedNavigation] is not part of
    the sources (only its test is).  The spec says: on abort with a
    given document id and error message, look up the frame, emit a
    [NavigationEvent] whose [newDocument] is the frame's current
    [pendingDocument], captured before clearing and carrying the
    error, and only then clear the frame's [pendingDocument] to nil.
    The result is the new frame manager and the events emitted on
    the frame; an unknown frame id emits nothing. *)
Definition frameAbortedNavigation (m : FrameManager) (frameID : FrameID)
    (errorText documentID' : string) : FrameManager * list NavigationEvent :=
  match frames m !! frameID with
  | None => (m, [])
  | Some frame =>
      let ne := mkNavigationEvent (pendingDocument frame) errorText in
      let frame' := mkFrame (id frame) None in
      (mkFrameManager (<[frameID := frame']> (frames m)), [ne])
  end.

End frames.

(** ** A sample of the "us" layout *)

Module sample.
Import keyboardlayout.

Definition table : list (KeyInput * KeyDefinition) :=
  [ ("ShiftLeft", mkKeyDefinition "Shift" "" "" 16 0 1 "");
    ("ControlLeft", mkKeyDefinition "Control" "" "" 17 0 1 "");
    ("KeyA", mkKeyDefinition "a" "A" "" 65 0 0 "");
    ("Digit2", mkKeyDefinition "2" "@" "" 50 0 0 "") ].

(** Modelled from the spec: the layout table and its lookup methods
    belong to package keyboardlayout, which is not part of the
    sources.  The spec says: if the token is absent from the table,
    search the table for an entry whose unmodified value equals the
    token; if still absent, search for an entry whose shift value
    equals the token. *)
Definition byKey (key : KeyInput) : KeyDefinition * bool :=
  match List.find (fun '(_, d) => String.eqb (Key d) key) table with
  | Some (_, d) => (d, true)
  | None => (zeroKeyDefinition, false)
  end.

Definition byShiftKey (key : KeyInput) : KeyDefinition :=
  match List.find (fun '(_, d) => String.eqb (ShiftKey d) key) table with
  | Some (_, d) => d
  | None => zeroKeyDefinition
  end.

Definition us : KeyboardLayout :=
  mkKeyboardLayout
    (list_to_set [ "ShiftLeft"; "Shift"; "ControlLeft"; "Control";
                   "KeyA"; "a"; "A"; "Digit2"; "2"; "@" ])
    (list_to_map table)
    byKey byShiftKey.

(** The registry of layouts knows only "us". *)
Definition GetKeyboardLayout (name : string) : KeyboardLayout := us.

(** A session that accepts every command. *)
Definition accept (a : input.DispatchKeyEventParams) : option error := None.

End sample.

(** ** Views and samples used by the statements *)

(** The three variants of a call argument, and the struct that each
    of them stands for: one field set, the other two empty. *)
Inductive CallArgumentVariant : Type :=
| PlainValue (json : string)
| UnserializableValue (token : string)
| RemoteObjectReference (objectID : string).

Definition toCallArgument (v : CallArgumentVariant) : cdpruntime.CallArgument :=
  match v with
  | PlainValue json => cdpruntime.mkCallArgument json "" ""
  | UnserializableValue token => cdpruntime.mkCallArgument "" token ""
  | RemoteObjectReference objectID => cdpruntime.mkCallArgument "" "" objectID
  end.

Definition returns (v : CallArgumentVariant) : option cdpruntime.CallArgument * option error :=
  (Some (toCallArgument v), None).

Definition fails (e : error) : option cdpruntime.CallArgument * option error :=
  (None, Some e).

(** The entry that key resolution settles on, and the conditions of
    the shift substitution rule (later revision). *)
Module resolution.
Import keyboardlayout Keyboard.

(** The entry that the three lookups of [keyDefinitionFromKey]
    settle on, and whether it was found by its shift value. *)
Definition resolve (l : KeyboardLayout) (key : KeyInput) : KeyDefinition * bool :=
  match Keys l !! key with
  | Some d => (d, false)
  | None =>
      let '(d, ok) := KeyDefinitionOf l key in
      if ok then (d, false) else (ShiftKeyDefinition l key, true)
  end.

(** The text of the entry without shift: its explicit text, else its
    key when that is a single character. *)
Definition baseText (src : KeyDefinition) : string :=
  if negb (String.eqb (Text src) "") then Text src
  else if (String.length (Key src) =? 1)%nat then Key src
  else "".

Definition shiftHeld (k : Keyboard) : bool :=
  negb (Z.land (modifiers k) ModifierKeyShift =? 0)%Z.

Definition otherModifierHeld (k : Keyboard) : bool :=
  negb (Z.land (modifiers k) (Z.lnot ModifierKeyShift) =? 0)%Z.

(** The shift substitution rule: shift layer or letter code, shift
    active, and a shift value defined. *)
Definition shiftRule (k : Keyboard) (key : KeyInput) : bool :=
  let '(src, foundInShift) := resolve (layout k) key in
  (foundInShift || isKeyX key)
  && (foundInShift || shiftHeld k)
  && negb (String.eqb (ShiftKey src) "").

End resolution.

(** Down and up commands, by their type. *)
Definition isDown (a : input.DispatchKeyEventParams) : Prop :=
  input.Type_ a <> input.KeyUp.

Definition isUp (a : input.DispatchKeyEventParams) : Prop :=
  input.Type_ a = input.KeyUp.

(** A stand-in for [json.Marshal] on numbers, good enough to run the
    marshaler: integers in decimal, floats by a fixed text. *)
Definition marshalInt (i : Z) : string * option error :=
  (NilEmpty.string_of_int (Z.to_int i), None).
Definition marshalFloat (f : spec_float) : string * option error := ("1.5", None).
Definition marshalUnit (x : unit) : string * option error := ("null", None).

(** A wait for "load" events whose payload is 2. *)
Definition isTwo (d : waiting.any nat) : bool :=
  match d with Some n => Nat.eqb n 2 | None => false end.

(** A fresh keyboard on the sample layout. *)
Definition fresh : Keyboard.Keyboard := Keyboard.mkKeyboard [] 0 ∅ "us" sample.us.

(** A keyboard on the sample layout with Shift held. *)
Definition shifted : Keyboard.Keyboard :=
  Keyboard.mkKeyboard [] ModifierKeyShift ∅ "us" sample.us.

(** Case analysis on every condition left in the goal. *)
Ltac case_conditions :=
  repeat match goal with
         | |- context [if ?b then _ else _] => destruct b eqn:?; simpl in *
         end.

(** ** Further helpers (helpers.go): quotes and DOM errors *)

Module strings_.

(** [strings.HasPrefix] *)
Definition HasPrefix (s prefix : string) : bool := String.prefix prefix s.

(** The scan behind [strings.LastIndex(s, sep)] for a separator of one
    byte: [i] is the index of the next byte and [acc] the index of the
    last match so far. *)
Fixpoint lastIndexFrom (i acc : Z) (s : string) (c : ascii) : Z :=
  match s with
  | EmptyString => acc
  | String a s' => lastIndexFrom (i + 1) (if Ascii.eqb a c then i else acc) s' c
  end.

(** [strings.LastIndex(s, sep)] for a separator of one byte: the index
    of its last occurrence, or -1. *)
Definition LastIndex (s : string) (c : ascii) : Z := lastIndexFrom 0 (-1) s c.

(** The slice expression [s[i:]]. *)
Definition sliceFrom (i : Z) (s : string) : string :=
  String.substring (Z.to_nat i) (String.length s - Z.to_nat i) s.

End strings_.

Module helpers_misc.

(** The two quote characters: the double quote (byte 34) and the
    single quote (byte 39). *)
Definition doubleQuote : ascii := ascii_of_nat 34.
Definition singleQuote : ascii := ascii_of_nat 39.

(** [TrimQuotes]: [s[0]] and [s[len(s)-1]] are read only under the
    test [len(s) >= 2], where both indices are in range. *)
Definition TrimQuotes (s : string) : string :=
  if (2 <=? String.length s)%nat then
    match String.get (String.length s - 1) s, String.get 0 s with
    | Some c, Some c0 =>
        if Ascii.eqb c0 c && (Ascii.eqb c doubleQuote || Ascii.eqb c singleQuote)
        then String.substring 1 (String.length s - 1 - 1) s
        else s
    | _, _ => s
    end
  else s.

(** [errorFromDOMError]: the [switch] on the error code, its default
    case, and the final [fmt.Errorf(domErr)], which takes the code
    itself as the format. *)
Definition errorFromDOMError (domErr : string) : error :=
  if String.eqb domErr "error:notconnected" then
    errorString "element is not attached to the DOM"
  else if String.eqb domErr "error:notelement" then
    errorString "node is not an element"
  else if String.eqb domErr "error:nothtmlelement" then
    errorString "not an HTMLElement"
  else if String.eqb domErr "error:notfillableelement" then
    errorString "element is not an <input>, <textarea> or [contenteditable] element"
  else if String.eqb domErr "error:notfillableinputtype" then
    errorString "input of this type cannot be filled"
  else if String.eqb domErr "error:notfillablenumberinput" then
    errorString "cannot type text into input[type=number]"
  else if String.eqb domErr "error:notvaliddate" then
    errorString "malformed value"
  else if String.eqb domErr "error:notinput" then
    errorString "node is not an HTMLInputElement"
  else if String.eqb domErr "error:hasnovalue" then
    errorString "node is not an HTMLInputElement or HTMLTextAreaElement or HTMLSelectElement"
  else if String.eqb domErr "error:notselect" then
    errorString "element is not a <select> element"
  else if String.eqb domErr "error:notcheckbox" then
    errorString "not a checkbox or radio button"
  else if String.eqb domErr "error:notmultiplefileinput" then
    errorString "non-multiple file input can only accept single file"
  else if String.eqb domErr "error:strictmodeviolation" then
    errorString "strict mode violation, multiple elements were returned for selector query"
  else if String.eqb domErr "error:notqueryablenode" then
    errorString "node is not queryable"
  else if String.eqb domErr "error:nthnocapture" then
    errorString "can't query n-th element in a chained selector with capture"
  else if String.eqb domErr "error:timeout" then
    ErrTimedOut
  else if strings_.HasPrefix domErr "error:expectednode:" then
    let i := strings_.LastIndex domErr ":" in
    Errorf "expected node but got %s" [strings_.sliceFrom i domErr]
  else Errorf domErr [].

End helpers_misc.

(** The position of the last occurrence of a byte, counted from the
    start, by structural recursion. *)
Fixpoint lastPos (s : string) (c : ascii) : option nat :=
  match s with
  | EmptyString => None
  | String a s' =>
      match lastPos s' c with
      | Some n => Some (S n)
      | None => if Ascii.eqb a c then Some 0%nat else None
      end
  end.

(** The byte [c] occurs in [s]. *)
Fixpoint occurs (c : ascii) (s : string) : bool :=
  match s with
  | EmptyString => false
  | String a s' => Ascii.eqb a c || occurs c s'
  end.

(** The number of fields of a call argument that are set. *)
Definition populated (a : cdpruntime.CallArgument) : nat :=
  (if String.eqb (cdpruntime.Value a) "" then 0 else 1)
  + (if String.eqb (cdpruntime.UnserializableValue a) "" then 0 else 1)
  + (if String.eqb (cdpruntime.ObjectID a) "" then 0 else 1).

(** The call argument is the struct of exactly one variant. *)
Definition oneVariant (a : cdpruntime.CallArgument) : Prop :=
  exists v, toCallArgument v = a /\ forall w, toCallArgument w = a -> w = v.

(** ** Keyboard, later revision: press, insertText and typ *)

Module KeyboardOps.
Import keyboardlayout Keyboard.

(** A command on the wire: a key event or [input.InsertText(text)]. *)
Inductive command : Type :=
| keyEvent (p : input.DispatchKeyEventParams)
| insertTextCmd (text : string).

Section WithCollaborators.

(** The layout registry of package keyboardlayout. *)
Variable GetKeyboardLayout : string -> KeyboardLayout.

(** The answers of the session to a key event and to an insertText
    command, [None] for success. *)
Variable Do : input.DispatchKeyEventParams -> option error.
Variable DoInsertText : string -> option error.

Definition NewKeyboard : Keyboard :=
  mkKeyboard [] 0 ∅ "us" (GetKeyboardLayout "us").

(** [press]: both cases of the [select] of the delay fall through to
    the key down, so the delay does not show in the result. *)
Definition press (key : string) (opts : KeyboardOptions) (k : Keyboard)
    : Keyboard * option error :=
  match down Do key k with
  | (k', Some err) => (k', Some (Wrapf "cannot do key down: %w" err))
  | (k', None) => up Do key k'
  end.

(** [insertText]: the command sent and the error returned. *)
Definition insertText (text : string) : command * option error :=
  match DoInsertText text with
  | Some err => (insertTextCmd text, Some (Wrapf "cannot execute insert text: %w" err))
  | None => (insertTextCmd text, None)
  end.

(** The key events that a step added to the session. *)
Definition sentSince (k k' : Keyboard) : list command :=
  keyEvent <$> drop (length (session k)) (session k').

(** [typ]: [runes] is the sequence that [range text] yields, each rune
    as the string [string(c)]; [wire] collects the commands sent, key
    events and insertText commands in the order of sending.  The delay
    falls through in both cases of its [select]. *)
Fixpoint typ_loop (runes : list string) (opts : KeyboardOptions)
    (k : Keyboard) (wire : list command) : Keyboard * list command * option error :=
  match runes with
  | [] => (k, wire, None)
  | c :: runes' =>
      let layout := GetKeyboardLayout (layoutName k) in
      let keyInput : KeyInput := c in
      if bool_decide (keyInput ∈ ValidKeys layout) then
        match press c opts k with
        | (k', Some err) =>
            (k', wire ++ sentSince k k', Some (Wrapf "cannot press key: %w" err))
        | (k', None) => typ_loop runes' opts k' (wire ++ sentSince k k')
        end
      else
        match insertText c with
        | (cmd, Some err) => (k, wire ++ [cmd], Some (Wrapf "cannot insert text: %w" err))
        | (cmd, None) => typ_loop runes' opts k (wire ++ [cmd])
        end
  end.

Definition typ (runes : list string) (opts : KeyboardOptions) (k : Keyboard)
    : Keyboard * list command * option error :=
  typ_loop runes opts k [].

(** A call of the keyboard, and a run of calls one after the other on
    the same keyboard, whatever each of them returns. *)
Inductive call : Type :=
| callDown (key : string)
| callUp (key : string)
| callPress (key : string) (opts : KeyboardOptions)
| callComboPress (keys : string) (opts : KeyboardOptions) (sel : delaySelect).

Definition perform (c : call) (k : Keyboard) : Keyboard :=
  match c with
  | callDown key => fst (down Do key k)
  | callUp key => fst (up Do key k)
  | callPress key opts => fst (press key opts k)
  | callComboPress keys opts sel => fst (comboPress Do keys opts sel k)
  end.

Definition performAll (cs : list call) (k : Keyboard) : Keyboard :=
  fold_left (fun k c => perform c k) cs k.

End WithCollaborators.

End KeyboardOps.

(** ** Keyboard, earlier revision: press *)

Module Keyboard0Ops.
Import keyboardlayout Keyboard0.

Section WithCollaborators.

Variable GetKeyboardLayout : string -> KeyboardLayout.
Variable Do : input.DispatchKeyEventParams -> option error.

(** [press]: the delay falls through in both cases of its [select]. *)
Definition press (key : string) (k : Keyboard) : Keyboard * option error :=
  match down GetKeyboardLayout Do key k with
  | (k', Some err) => (k', Some err)
  | (k', None) => up GetKeyboardLayout Do key k'
  end.

Inductive call : Type :=
| callDown (key : string)
| callUp (key : string)
| callPress (key : string).

Definition perform (c : call) (k : Keyboard) : Keyboard :=
  match c with
  | callDown key => fst (down GetKeyboardLayout Do key k)
  | callUp key => fst (up GetKeyboardLayout Do key k)
  | callPress key => fst (press key k)
  end.

Definition performAll (cs : list call) (k : Keyboard) : Keyboard :=
  fold_left (fun k c => perform c k) cs k.

End WithCollaborators.

End Keyboard0Ops.

(** The modifier bit that a key of the layout names, by its unshifted
    entry, and the bits named by a list of keys. *)
Definition bitOf (l : keyboardlayout.KeyboardLayout) (key : string) : Z :=
  modifierBitFromKeyName (keyboardlayout.Key (fst (resolution.resolve l key))).

Definition bitsOf (l : keyboardlayout.KeyboardLayout) (kk : list string) : Z :=
  fold_right (fun key B => Z.lor (bitOf l key) B) 0%Z kk.

(** The resolved key of the entry names the same modifier bit with
    and without the shift substitution. *)
Definition stableName (l : keyboardlayout.KeyboardLayout) (key : string) : Prop :=
  let src := fst (resolution.resolve l key) in
  keyboardlayout.ShiftKey src = "" \/
  modifierBitFromKeyName (keyboardlayout.ShiftKey src)
  = modifierBitFromKeyName (keyboardlayout.Key src).

(** A segment of a combo string: a plus sign, if any, comes first. *)
Definition plusOnlyAtHead (seg : string) : bool :=
  match seg with
  | EmptyString => true
  | String _ t => negb (occurs "+" t)
  end.

(** The key event that [down] builds in a given state, and the one
    that [up] builds (later revision), field by field. *)
Definition downCommand (k : Keyboard.Keyboard) (key : string) : input.DispatchKeyEventParams :=
  let keyDef := Keyboard.keyDefinitionFromKey k key in
  input.mkDispatchKeyEvent
    (if String.eqb (keyboardlayout.Text keyDef) "" then input.KeyRawDown else input.KeyDown)
    (Z.lor (Keyboard.modifiers k) (modifierBitFromKeyName (keyboardlayout.Key keyDef)))
    (keyboardlayout.Key keyDef)
    (keyboardlayout.KeyCode keyDef)
    (keyboardlayout.Code keyDef)
    (keyboardlayout.Location keyDef)
    (keyboardlayout.Location keyDef =? 3)%Z
    (keyboardlayout.Text keyDef)
    (keyboardlayout.Text keyDef)
    (bool_decide (is_Some (Keyboard.pressedKeys k !! keyboardlayout.KeyCode keyDef))).

Definition upCommand (k : Keyboard.Keyboard) (key : string) : input.DispatchKeyEventParams :=
  let keyDef := Keyboard.keyDefinitionFromKey k key in
  input.mkDispatchKeyEvent input.KeyUp
    (Z.land (Keyboard.modifiers k)
       (Z.lnot (modifierBitFromKeyName (keyboardlayout.Key keyDef))))
    (keyboardlayout.Key keyDef)
    (keyboardlayout.KeyCode keyDef)
    (keyboardlayout.Code keyDef)
    (keyboardlayout.Location keyDef)
    false "" "" false.

(** The state after [down] and after [up] of a valid key. *)
Definition afterDown (k : Keyboard.Keyboard) (key : string) : Keyboard.Keyboard :=
  let keyDef := Keyboard.keyDefinitionFromKey k key in
  Keyboard.mkKeyboard
    (Keyboard.session k ++ [downCommand k key])
    (Z.lor (Keyboard.modifiers k) (modifierBitFromKeyName (keyboardlayout.Key keyDef)))
    (<[keyboardlayout.KeyCode keyDef := true]> (Keyboard.pressedKeys k))
    (Keyboard.layoutName k) (Keyboard.layout k).

Definition afterUp (k : Keyboard.Keyboard) (key : string) : Keyboard.Keyboard :=
  let keyDef := Keyboard.keyDefinitionFromKey k key in
  Keyboard.mkKeyboard
    (Keyboard.session k ++ [upCommand k key])
    (Z.land (Keyboard.modifiers k)
       (Z.lnot (modifierBitFromKeyName (keyboardlayout.Key keyDef))))
    (delete (keyboardlayout.KeyCode keyDef) (Keyboard.pressedKeys k))
    (Keyboard.layoutName k) (Keyboard.layout k).

(** The modifier state holds no bit beyond the four modifier bits. *)
Definition modifiersInRange (m : Z) : Prop := (0 <= m < 16)%Z.

(** What a command on the wire is: the press or the release of a key,
    by its code, or the insertion of a text. *)
Inductive shape : Type :=
| pressed (code : string)
| released (code : string)
| inserted (text : string).

Definition shapeOf (c : KeyboardOps.command) : shape :=
  match c with
  | KeyboardOps.keyEvent p =>
      match input.Type_ p with
      | input.KeyUp => released (input.Code p)
      | _ => pressed (input.Code p)
      end
  | KeyboardOps.insertTextCmd text => inserted text
  end.

(** What typing one rune puts on the wire: a press and a release for
    a valid key of the layout, one insertion for any other rune. *)
Definition typedShapes (l : keyboardlayout.KeyboardLayout) (c : string) : list shape :=
  if bool_decide (c ∈ keyboardlayout.ValidKeys l) then [pressed c; released c]
  else [inserted c].

(** Earlier revision: no modifier held, and no command sent with a
    modifier. *)
Definition unmodified (k : Keyboard0.Keyboard) : Prop :=
  Keyboard0.modifiers k = 0%Z /\
  Forall (fun a => input.Modifiers a = 0%Z) (Keyboard0.session k).

(** No byte of the string is an ASCII byte. *)
Fixpoint allHigh (s : string) : bool :=
  match s with
  | EmptyString => true
  | String c t => (128 <=? nat_of_ascii c)%nat && allHigh t
  end.

(** The bytes that writing the runes one after the other gives. *)
Definition joinRunes (runes : list utf8.rune) : string :=
  fold_right String.append "" runes.

(** A rune as the decoding yields it: not empty, and either the plus
    sign itself or free of the byte of the plus sign. *)
Definition properRune (r : utf8.rune) : Prop :=
  r <> "" /\ (r = "+" \/ occurs "+" r = false).

(** * Properties *)

(** ** Strings *)

Lemma append_cons (c : ascii) (s t : string) : String c s +:+ t = String c (s +:+ t).
Proof. reflexivity. Qed.

Lemma append_empty_l (s : string) : "" +:+ s = s.
Proof. reflexivity. Qed.

Lemma append_empty_r (s : string) : s +:+ "" = s.
Proof.
  induction s as [|c s IH]; [reflexivity|].
  now rewrite append_cons, IH.
Qed.

Lemma append_assoc (s1 s2 s3 : string) : (s1 +:+ s2) +:+ s3 = s1 +:+ (s2 +:+ s3).
Proof.
  induction s1 as [|c s1 IH]; [reflexivity|].
  now rewrite !append_cons, IH.
Qed.

Lemma length_pos_nonempty (s : string) :
  (0 <? String.length s)%nat = negb (String.eqb s "").
Proof. destruct s; reflexivity. Qed.

Lemma concat_snoc (sep : string) (l : list string) (x : string) :
  String.concat sep (l ++ [x]) =
  match l with
  | [] => x
  | _ => String.concat sep l +:+ sep +:+ x
  end.
Proof.
  induction l as [|a l IH]; [reflexivity|].
  destruct l as [|b l].
  - reflexivity.
  - change (String.concat sep ((a :: b :: l) ++ [x]))
      with (a +:+ sep +:+ String.concat sep ((b :: l) ++ [x])).
    rewrite IH.
    change (String.concat sep (a :: b :: l))
      with (a +:+ sep +:+ String.concat sep (b :: l)).
    now rewrite !append_assoc.
Qed.

Lemma concat_snoc_cons (sep : string) (a : string) (l : list string) (x : string) :
  String.concat sep ((a :: l) ++ [x]) = String.concat sep (a :: l) +:+ sep +:+ x.
Proof. now rewrite concat_snoc. Qed.

Lemma length_append (s t : string) :
  String.length (s +:+ t) = (String.length s + String.length t)%nat.
Proof.
  induction s as [|c s IH]; [reflexivity|].
  rewrite append_cons. simpl. now rewrite IH.
Qed.

Lemma substring_prefix (t u : string) :
  String.substring 0 (String.length t) (t +:+ u) = t.
Proof.
  induction t as [|a t IH].
  - simpl. now destruct u.
  - rewrite append_cons. simpl. now rewrite IH.
Qed.

Lemma substring_full (u : string) : String.substring 0 (String.length u) u = u.
Proof. induction u as [|a u IH]; simpl; [reflexivity | now rewrite IH]. Qed.

Lemma substring_suffix (pre u : string) :
  String.substring (String.length pre)
    (String.length (pre +:+ u) - String.length pre) (pre +:+ u) = u.
Proof.
  induction pre as [|a pre IH].
  - rewrite append_empty_l. simpl. rewrite Nat.sub_0_r. apply substring_full.
  - rewrite append_cons. simpl. exact IH.
Qed.

Lemma occurs_append (c : ascii) (s t : string) :
  occurs c (s +:+ t) = occurs c s || occurs c t.
Proof.
  induction s as [|a s IH]; [reflexivity|].
  rewrite append_cons. simpl. rewrite IH. now rewrite orb_assoc.
Qed.

(** ** Combo-string splitting *)

(** *** The runes of a string *)

Lemma first_bounds (b0 sz lo hi : nat) :
  utf8.first b0 = Some (sz, lo, hi) -> (128 <= lo /\ 2 <= sz <= 4)%nat.
Proof.
  unfold utf8.first.
  repeat match goal with
         | |- context [if ?b then _ else _] => destruct b
         end;
    intros H; try discriminate H; injection H as <- <- <-; lia.
Qed.

Lemma inRange_low (lo hi : nat) (c : ascii) :
  utf8.inRange lo hi c = true -> (128 <= lo)%nat -> (128 <=? nat_of_ascii c)%nat = true.
Proof.
  unfold utf8.inRange. intros H Hlo. apply andb_true_iff in H as [H _].
  apply Nat.leb_le in H. apply Nat.leb_le. lia.
Qed.

(** A valid sequence is a prefix of the string: one ASCII byte, or two
    to four bytes none of which is an ASCII byte. *)
Lemma decodeSize_prefix (s : string) (n : nat) :
  utf8.decodeSize s = Some n ->
  exists p t,
    s = p +:+ t /\ String.length p = n /\ p <> "" /\
    ((exists c, p = String c "" /\ (nat_of_ascii c < 128)%nat) \/ allHigh p = true).
Proof.
  destruct s as [|s0 t0]; [discriminate|]. unfold utf8.decodeSize.
  destruct (Nat.ltb_spec (nat_of_ascii s0) 128) as [H0|H0].
  { intros H; injection H as <-. exists (String s0 ""), t0.
    split; [reflexivity|]. split; [reflexivity|]. split; [discriminate|]. left. now exists s0. }
  apply Nat.leb_le in H0.
  destruct (utf8.first (nat_of_ascii s0)) as [[[sz lo] hi]|] eqn:F; [|discriminate].
  apply first_bounds in F as [Hlo _].
  destruct t0 as [|s1 t1]; [discriminate|].
  destruct (utf8.inRange lo hi s1) eqn:R1; [|discriminate]. cbn [negb].
  apply inRange_low in R1; [|exact Hlo].
  destruct (sz <=? 2)%nat.
  { intros H; injection H as <-. exists (String s0 (String s1 "")), t1.
    split; [reflexivity|]. split; [reflexivity|]. split; [discriminate|]. right.
    cbn [allHigh]. now rewrite H0, R1. }
  destruct t1 as [|s2 t2]; [discriminate|].
  destruct (utf8.inRange 128 191 s2) eqn:R2; [|discriminate]. cbn [negb].
  apply inRange_low in R2; [|lia].
  destruct (sz <=? 3)%nat.
  { intros H; injection H as <-. exists (String s0 (String s1 (String s2 ""))), t2.
    split; [reflexivity|]. split; [reflexivity|]. split; [discriminate|]. right.
    cbn [allHigh]. now rewrite H0, R1, R2. }
  destruct t2 as [|s3 t3]; [discriminate|].
  destruct (utf8.inRange 128 191 s3) eqn:R3; [|discriminate]. cbn [negb].
  apply inRange_low in R3; [|lia].
  intros H; injection H as <-.
  exists (String s0 (String s1 (String s2 (String s3 "")))), t3.
  split; [reflexivity|]. split; [reflexivity|]. split; [discriminate|]. right.
  cbn [allHigh]. now rewrite H0, R1, R2, R3.
Qed.

(** Decoding looks at the sequence only: more bytes behind a string
    whose first rune is valid do not change that rune. *)
Lemma decodeSize_append (a b : string) (n : nat) :
  utf8.decodeSize a = Some n -> utf8.decodeSize (a +:+ b) = Some n.
Proof.
  destruct a as [|s0 t0]; [discriminate|].
  rewrite append_cons. unfold utf8.decodeSize.
  destruct (nat_of_ascii s0 <? 128)%nat; [easy|].
  destruct (utf8.first (nat_of_ascii s0)) as [[[sz lo] hi]|]; [|easy].
  destruct t0 as [|s1 t1]; [discriminate|]. rewrite append_cons.
  destruct (negb (utf8.inRange lo hi s1)); [easy|].
  destruct (sz <=? 2)%nat; [easy|].
  destruct t1 as [|s2 t2]; [discriminate|]. rewrite append_cons.
  destruct (negb (utf8.inRange 128 191 s2)); [easy|].
  destruct (sz <=? 3)%nat; [easy|].
  destruct t2 as [|s3 t3]; [discriminate|]. rewrite append_cons.
  easy.
Qed.

Lemma allHigh_no_ascii (c : ascii) (p : string) :
  (nat_of_ascii c < 128)%nat -> allHigh p = true -> occurs c p = false.
Proof.
  intros Hc. induction p as [|a p IH]; [reflexivity|].
  cbn [allHigh occurs]. intros H. apply andb_true_iff in H as [Ha Hp].
  rewrite (IH Hp), orb_false_r. apply Ascii.eqb_neq. intros ->.
  apply Nat.leb_le in Ha. lia.
Qed.

Lemma proper_ascii (c : ascii) : properRune (String c "").
Proof.
  split; [discriminate|].
  destruct (Ascii.eqb_spec c "+") as [->|Hne]; [now left|].
  right. cbn [occurs]. apply Ascii.eqb_neq in Hne. now rewrite Hne.
Qed.

Lemma proper_high (p : string) : p <> "" -> allHigh p = true -> properRune p.
Proof.
  intros Hp Hh. split; [exact Hp|]. right.
  apply allHigh_no_ascii; [vm_compute; lia | exact Hh].
Qed.

(** One step of the decoding: the rune, its width and the rest. *)
Lemma decodeRune_step (s : string) :
  s <> "" ->
  exists r t w,
    utf8.decodeRune s = (r, w) /\
    String.substring w (String.length s - w) s = t /\
    properRune r /\ (String.length t < String.length s)%nat /\
    (forall n, utf8.decodeSize s = Some n -> s = r +:+ t /\ w = n).
Proof.
  intros Hs. unfold utf8.decodeRune.
  destruct (utf8.decodeSize s) as [n|] eqn:D.
  - destruct (decodeSize_prefix s n D) as (p & t & -> & Hn & Hne & Hp).
    exists p, t, n. rewrite <- Hn.
    split; [now rewrite substring_prefix|].
    split; [apply substring_suffix|].
    split.
    { destruct Hp as [(c & -> & Hc) | Hh]; [apply proper_ascii|].
      now apply proper_high. }
    split.
    { rewrite length_append. destruct p; [congruence | simpl; lia]. }
    intros n' E. injection E as <-. now split.
  - destruct s as [|c t]; [congruence|].
    exists utf8.RuneErrorString, t, 1%nat.
    split; [reflexivity|].
    split; [simpl; rewrite ?Nat.sub_0_r; apply substring_full|].
    split; [split; [discriminate | right; reflexivity]|].
    split; [simpl; lia | discriminate].
Qed.

Lemma rangeRunes_from_empty (fuel : nat) : utf8.rangeRunes_from fuel "" = [].
Proof. now destruct fuel. Qed.

(** Enough fuel is enough: the runes do not depend on it. *)
Lemma rangeRunes_from_enough (f1 : nat) : forall (f2 : nat) (s : string),
  (String.length s <= f1)%nat -> (String.length s <= f2)%nat ->
  utf8.rangeRunes_from f1 s = utf8.rangeRunes_from f2 s.
Proof.
  induction f1 as [|f1 IH]; intros f2 s H1 H2.
  - destruct s; [now rewrite !rangeRunes_from_empty | simpl in H1; lia].
  - destruct s as [|c t]; [now rewrite !rangeRunes_from_empty|].
    destruct f2 as [|f2]; [simpl in H2; lia|].
    cbn [utf8.rangeRunes_from].
    destruct (decodeRune_step (String c t)) as (r & t' & w & E & Hrest & _ & Hlen & _);
      [discriminate|].
    rewrite E, Hrest. f_equal. simpl in *. apply IH; lia.
Qed.

(** [range] yields the first rune and then the runes of the rest. *)
Lemma rangeRunes_step (s : string) (r : utf8.rune) (w : nat) :
  s <> "" -> utf8.decodeRune s = (r, w) ->
  utf8.rangeRunes s
  = r :: utf8.rangeRunes (String.substring w (String.length s - w) s).
Proof.
  intros Hs E. unfold utf8.rangeRunes at 1.
  destruct s as [|c t]; [congruence|].
  cbn [String.length utf8.rangeRunes_from]. rewrite E. f_equal.
  destruct (decodeRune_step (String c t)) as (r' & t' & w' & E' & Hrest & _ & Hlen & _);
    [discriminate|].
  rewrite E in E'. injection E' as <- <-.
  cbn [String.length] in Hrest. rewrite Hrest.
  apply rangeRunes_from_enough; simpl in *; lia.
Qed.

Lemma rangeRunes_plus (rest : string) :
  utf8.rangeRunes (String "+" rest) = "+" :: utf8.rangeRunes rest.
Proof.
  rewrite (rangeRunes_step (String "+" rest) "+" 1); [|discriminate|].
  - simpl. now rewrite Nat.sub_0_r, substring_full.
  - unfold utf8.decodeRune. simpl. now destruct rest.
Qed.

Lemma rangeRunes_proper_from (fuel : nat) : forall s,
  Forall properRune (utf8.rangeRunes_from fuel s).
Proof.
  induction fuel as [|fuel IH]; intros s; [constructor|].
  destruct s as [|c t]; [constructor|].
  cbn [utf8.rangeRunes_from].
  destruct (decodeRune_step (String c t)) as (r & t' & w & E & Hrest & Hp & _);
    [discriminate|].
  rewrite E. constructor; [exact Hp | apply IH].
Qed.

(** Every rune that [range] yields is the plus sign or holds no byte
    of a plus sign, and none is empty. *)
Lemma rangeRunes_proper (s : string) : Forall properRune (utf8.rangeRunes s).
Proof. apply rangeRunes_proper_from. Qed.

(** A valid first rune, the rest behind it, and the same with more
    bytes appended. *)
Lemma decodeRune_valid (s : string) (n : nat) :
  utf8.decodeSize s = Some n ->
  exists p t,
    s = p +:+ t /\ p <> "" /\
    utf8.decodeRune s = (p, n) /\
    String.substring n (String.length s - n) s = t /\
    (String.length t < String.length s)%nat /\
    forall b, utf8.decodeRune (s +:+ b) = (p, n) /\
              String.substring n (String.length (s +:+ b) - n) (s +:+ b) = t +:+ b.
Proof.
  intros D. destruct (decodeSize_prefix s n D) as (p & t & Hs & Hn & Hne & _).
  exists p, t. split; [exact Hs|]. split; [exact Hne|].
  split; [unfold utf8.decodeRune; rewrite D, Hs, <- Hn; now rewrite substring_prefix|].
  split; [rewrite Hs, <- Hn; apply substring_suffix|].
  split; [rewrite Hs, length_append; destruct p; [congruence | simpl; lia]|].
  intros b. split.
  - unfold utf8.decodeRune. rewrite (decodeSize_append s b n D).
    rewrite Hs, append_assoc, <- Hn. now rewrite substring_prefix.
  - rewrite Hs, append_assoc, <- Hn. apply substring_suffix.
Qed.

Lemma validFrom_join (fuel : nat) : forall s,
  (String.length s <= fuel)%nat -> utf8.validFrom fuel s = true ->
  joinRunes (utf8.rangeRunes_from fuel s) = s.
Proof.
  induction fuel as [|fuel IH]; intros s Hl Hv.
  - destruct s; [reflexivity | simpl in Hl; lia].
  - destruct s as [|c t]; [reflexivity|].
    remember (String c t) as s eqn:Es.
    assert (R : utf8.rangeRunes_from (S fuel) s
                = let '(r, width) := utf8.decodeRune s in
                  r :: utf8.rangeRunes_from fuel
                         (String.substring width (String.length s - width) s))
      by now rewrite Es.
    assert (V : utf8.validFrom (S fuel) s
                = match utf8.decodeSize s with
                  | Some n => utf8.validFrom fuel
                                (String.substring n (String.length s - n) s)
                  | None => false
                  end)
      by now rewrite Es.
    rewrite R. rewrite V in Hv. clear R V Es c t.
    destruct (utf8.decodeSize s) as [n|] eqn:D; [|discriminate].
    destruct (decodeRune_valid s n D) as (p & t & Hs & _ & E & Hrest & Hlen & _).
    rewrite E, Hrest in *. cbn [joinRunes fold_right].
    fold (joinRunes (utf8.rangeRunes_from fuel t)).
    rewrite IH; [now rewrite <- Hs | lia | exact Hv].
Qed.

(** Writing back the runes of a valid string gives the string. *)
Lemma joinRunes_rangeRunes (s : string) :
  utf8.ValidString s = true -> joinRunes (utf8.rangeRunes s) = s.
Proof. intros Hv. apply validFrom_join; [lia | exact Hv]. Qed.

Lemma validFrom_app (fuel : nat) (b : string) : forall a,
  (String.length a <= fuel)%nat -> utf8.validFrom fuel a = true ->
  utf8.rangeRunes (a +:+ b) = utf8.rangeRunes_from fuel a ++ utf8.rangeRunes b.
Proof.
  induction fuel as [|fuel IH]; intros a Hl Hv.
  - destruct a; [reflexivity | simpl in Hl; lia].
  - destruct a as [|c t]; [reflexivity|].
    remember (String c t) as a eqn:Ea.
    assert (Hne : a +:+ b <> "") by (rewrite Ea, append_cons; discriminate).
    assert (R : utf8.rangeRunes_from (S fuel) a
                = let '(r, width) := utf8.decodeRune a in
                  r :: utf8.rangeRunes_from fuel
                         (String.substring width (String.length a - width) a))
      by now rewrite Ea.
    assert (V : utf8.validFrom (S fuel) a
                = match utf8.decodeSize a with
                  | Some n => utf8.validFrom fuel
                                (String.substring n (String.length a - n) a)
                  | None => false
                  end)
      by now rewrite Ea.
    rewrite R. rewrite V in Hv. clear R V Ea c t.
    destruct (utf8.decodeSize a) as [n|] eqn:D; [|discriminate].
    destruct (decodeRune_valid a n D) as (p & t & Hs & _ & E & Hrest & Hlen & Hb).
    destruct (Hb b) as [Eb Hrestb].
    rewrite E, Hrest in *.
    rewrite (rangeRunes_step _ p n Hne Eb), Hrestb.
    cbn [app]. f_equal. apply IH; [lia | exact Hv].
Qed.

(** The runes of a valid string followed by more bytes are its own
    runes followed by the runes of those bytes. *)
Lemma rangeRunes_app (a b : string) :
  utf8.ValidString a = true ->
  utf8.rangeRunes (a +:+ b) = utf8.rangeRunes a ++ utf8.rangeRunes b.
Proof. intros Hv. apply validFrom_app; [lia | exact Hv]. Qed.

(** One step of the loop: the separator test is "the rune is the plus
    sign and the accumulator is not empty". *)
Lemma split_loop_step (kk : list string) (s : string) (r : utf8.rune)
    (runes : list utf8.rune) :
  split_loop kk s (r :: runes) =
  if String.eqb r "+" && (0 <? String.length s)%nat
  then split_loop (kk ++ [s]) "" runes
  else split_loop kk (s +:+ r) runes.
Proof. reflexivity. Qed.

(** The loop only ever extends [kk]; the accumulator comes last. *)
Lemma split_loop_shape (runes : list utf8.rune) : forall kk s,
  Forall (fun seg => seg <> "") kk ->
  exists (kk' : list string) (s' : string),
    split_loop kk s runes = (kk' ++ [s'])%list /\ Forall (fun seg => seg <> "") kk'.
Proof.
  induction runes as [|r runes IH]; intros kk s Hkk.
  - exists kk, s. split; [reflexivity | assumption].
  - rewrite split_loop_step.
    destruct (String.eqb r "+" && (0 <? String.length s)%nat) eqn:E.
    + apply IH. apply Forall_app. split; [assumption|].
      constructor; [|constructor].
      apply andb_true_iff in E as [_ E]. intros ->. discriminate E.
    + apply IH. assumption.
Qed.

(** Joining the segments of the loop with plus signs gives back the
    bytes of the runes that were read. *)
Lemma split_loop_concat (runes : list utf8.rune) : forall kk s,
  String.concat "+" (split_loop kk s runes)
  = String.concat "+" (kk ++ [s]) +:+ joinRunes runes.
Proof.
  induction runes as [|r runes IH]; intros kk s.
  - cbn [split_loop joinRunes fold_right]. symmetry. apply append_empty_r.
  - rewrite split_loop_step.
    change (joinRunes (r :: runes)) with (r +:+ joinRunes runes).
    destruct (String.eqb r "+" && (0 <? String.length s)%nat) eqn:E.
    + rewrite IH.
      apply andb_true_iff in E as [Er _]. apply String.eqb_eq in Er. subst r.
      destruct (kk ++ [s]) as [|a l] eqn:Hl.
      * destruct kk; discriminate Hl.
      * rewrite concat_snoc_cons. now rewrite !append_assoc.
    + rewrite IH. rewrite !concat_snoc.
      destruct kk as [|a l]; now rewrite !append_assoc.
Qed.

(** C3. [split] runs its loop over the runes of the combo string,
    from no segment and an empty accumulator.  The loop treats a rune
    as a separator exactly when it is the plus sign and the accumulator
    holds at least one byte; any other rune, and a plus sign met with
    an empty accumulator, is appended to the accumulator.  The final
    accumulator, empty or not, is always the last segment.  A byte
    that is a plus sign is always a rune of its own.  Hence every
    segment before the last is non-empty, and for a combo string that
    is valid UTF-8 joining the segments with plus signs gives back the
    combo string.  In particular [split "+" = ["+"]],
    [split "++" = ["+"; ""]], [split "+++" = ["+"; "+"]],
    [split "a+b" = ["a"; "b"]] and [split "a+b+c" = ["a"; "b"; "c"]];
    a byte that is no valid UTF-8 comes back as the replacement
    rune. *)
Theorem split_spec :
  (forall keys, split keys = split_loop [] "" (utf8.rangeRunes keys)) /\
  (forall kk s r runes,
      split_loop kk s (r :: runes) =
      if String.eqb r "+" && (0 <? String.length s)%nat
      then split_loop (kk ++ [s]) "" runes
      else split_loop kk (s +:+ r) runes) /\
  (forall kk s, split_loop kk s [] = kk ++ [s]) /\
  (forall rest, utf8.rangeRunes (String "+" rest) = "+" :: utf8.rangeRunes rest) /\
  (forall keys, exists (kk : list string) (s : string),
      split keys = (kk ++ [s])%list /\ Forall (fun seg => seg <> "") kk) /\
  (forall keys, utf8.ValidString keys = true ->
      String.concat "+" (split keys) = keys) /\
  split "" = [""] /\
  split "+" = ["+"] /\
  split "++" = ["+"; ""] /\
  split "+++" = ["+"; "+"] /\
  split "a+b" = ["a"; "b"] /\
  split "a+b+c" = ["a"; "b"; "c"] /\
  split "Control+Shift++" = ["Control"; "Shift"; "+"] /\
  split (String (ascii_of_nat 255) "+a") = [utf8.RuneErrorString; "a"].
Proof.
  split; [reflexivity|].
  split; [exact split_loop_step|].
  split; [reflexivity|].
  split; [exact rangeRunes_plus|].
  split; [intros keys; apply split_loop_shape; constructor|].
  split.
  { intros keys Hv. unfold split. rewrite split_loop_concat.
    now rewrite joinRunes_rangeRunes. }
  repeat split; reflexivity.
Qed.

Lemma split_spec_witness :
  utf8.ValidString "Control+a" = true /\
  String.concat "+" (split "Control+a") = "Control+a".
Proof.
  pose proof split_spec as (_ & _ & _ & _ & _ & H & _).
  refine (conj _ (H "Control+a" _)); reflexivity.
Defined.

(** ** Handles as call arguments *)

(** One variant has one struct: the encoding does not confuse two
    variants that carry something. *)
Lemma toCallArgument_inj (v w : CallArgumentVariant) :
  toCallArgument v = toCallArgument w ->
  v = w \/ toCallArgument v = cdpruntime.mkCallArgument "" "" "".
Proof.
  destruct v as [a|a|a], w as [b|b|b]; simpl; intros H; inversion H; subst; auto.
Qed.

(** A struct is the struct of exactly one variant when exactly one
    of its fields is set: the struct with no field set is the struct
    of all three variants, with empty contents. *)
Lemma oneVariant_populated (a : cdpruntime.CallArgument) :
  oneVariant a <-> populated a = 1%nat.
Proof.
  destruct a as [x y z]. unfold oneVariant, populated. cbn [cdpruntime.Value
    cdpruntime.UnserializableValue cdpruntime.ObjectID].
  split.
  - intros (v & Hv & Huniq).
    destruct v as [b|b|b]; cbn [toCallArgument] in Hv; injection Hv as <- <- <-;
      destruct (String.eqb_spec b "") as [->|Hb]; try reflexivity.
    + specialize (Huniq (UnserializableValue "") eq_refl). discriminate Huniq.
    + specialize (Huniq (PlainValue "") eq_refl). discriminate Huniq.
    + specialize (Huniq (PlainValue "") eq_refl). discriminate Huniq.
  - destruct (String.eqb_spec x "") as [->|Hx], (String.eqb_spec y "") as [->|Hy],
      (String.eqb_spec z "") as [->|Hz]; cbn; intros H; try discriminate H.
    + exists (RemoteObjectReference z). split; [reflexivity|].
      intros [b|b|b] Hb; cbn [toCallArgument] in Hb; congruence.
    + exists (UnserializableValue y). split; [reflexivity|].
      intros [b|b|b] Hb; cbn [toCallArgument] in Hb; congruence.
    + exists (PlainValue x). split; [reflexivity|].
      intros [b|b|b] Hb; cbn [toCallArgument] in Hb; congruence.
Qed.

Lemma populated_PlainValue (json : string) :
  populated (toCallArgument (PlainValue json))
  = if String.eqb json "" then 0%nat else 1%nat.
Proof. unfold populated. cbn. now destruct (String.eqb json ""). Qed.

(** C7, as it holds.  [convertBaseJSHandleTypes] checks the execution
    context first, then disposal, and otherwise returns the
    unserializable value when the handle carries one, else the inline
    value when the handle has no object id, else a reference to the
    object id.  The struct it returns is that of exactly one variant
    in the first and in the last of these cases; in the middle case it
    is so exactly when the inline value is not empty, and with an empty
    inline value no field of the struct is set. *)
Theorem convertBaseJSHandleTypes_spec
    (ctx : helpers.ExecutionContextPtr) (h : helpers.BaseJSHandle) :
  let ro := helpers.remoteObject h in
  (helpers.execCtx h <> ctx ->
     helpers.convertBaseJSHandleTypes ctx h = fails ErrWrongExecutionContext) /\
  (helpers.execCtx h = ctx -> helpers.disposed h = true ->
     helpers.convertBaseJSHandleTypes ctx h = fails ErrJSHandleDisposed) /\
  (helpers.execCtx h = ctx -> helpers.disposed h = false ->
     cdpruntime.roUnserializableValue ro <> "" ->
     helpers.convertBaseJSHandleTypes ctx h =
       returns (UnserializableValue (cdpruntime.roUnserializableValue ro)) /\
     oneVariant (toCallArgument (UnserializableValue (cdpruntime.roUnserializableValue ro)))) /\
  (helpers.execCtx h = ctx -> helpers.disposed h = false ->
     cdpruntime.roUnserializableValue ro = "" -> cdpruntime.roObjectID ro = "" ->
     helpers.convertBaseJSHandleTypes ctx h = returns (PlainValue (cdpruntime.roValue ro)) /\
     (oneVariant (toCallArgument (PlainValue (cdpruntime.roValue ro)))
      <-> cdpruntime.roValue ro <> "") /\
     populated (toCallArgument (PlainValue (cdpruntime.roValue ro)))
     = if String.eqb (cdpruntime.roValue ro) "" then 0%nat else 1%nat) /\
  (helpers.execCtx h = ctx -> helpers.disposed h = false ->
     cdpruntime.roUnserializableValue ro = "" -> cdpruntime.roObjectID ro <> "" ->
     helpers.convertBaseJSHandleTypes ctx h =
       returns (RemoteObjectReference (cdpruntime.roObjectID ro)) /\
     oneVariant (toCallArgument (RemoteObjectReference (cdpruntime.roObjectID ro)))).
Proof.
  intros ro. unfold helpers.convertBaseJSHandleTypes, returns, fails. subst ro.
  refine (conj _ (conj _ (conj _ (conj _ _)))).
  - intros Hne. apply Pos.eqb_neq in Hne. now rewrite Hne.
  - intros <- ->. now rewrite Pos.eqb_refl.
  - intros <- -> Hu. rewrite Pos.eqb_refl. cbn [negb].
    split.
    + apply String.eqb_neq in Hu. now rewrite Hu.
    + apply oneVariant_populated. unfold populated. cbn.
      apply String.eqb_neq in Hu. now rewrite Hu.
  - intros <- -> Hu Ho. rewrite Pos.eqb_refl, Hu, Ho.
    split; [reflexivity|]. split; [|apply populated_PlainValue].
    rewrite oneVariant_populated, populated_PlainValue.
    destruct (String.eqb_spec (cdpruntime.roValue (helpers.remoteObject h)) "") as [E|E].
    + split; [discriminate | intros H; now elim H].
    + split; [intros _; exact E | reflexivity].
  - intros <- -> Hu Ho. rewrite Pos.eqb_refl, Hu. cbn.
    apply String.eqb_neq in Ho.
    split.
    + now rewrite Ho.
    + apply oneVariant_populated. unfold populated. cbn. now rewrite Ho.
Qed.

(** Each branch of the theorem at a handle of its own. *)
Lemma convertBaseJSHandleTypes_spec_witness :
  let ro u o := cdpruntime.mkRemoteObject u o "7" in
  helpers.convertBaseJSHandleTypes 1%positive (helpers.mkBaseJSHandle 2%positive true (ro "" "obj"))
    = fails ErrWrongExecutionContext /\
  helpers.convertBaseJSHandleTypes 1%positive (helpers.mkBaseJSHandle 1%positive true (ro "" "obj"))
    = fails ErrJSHandleDisposed /\
  (helpers.convertBaseJSHandleTypes 1%positive (helpers.mkBaseJSHandle 1%positive false (ro "NaN" "obj"))
    = returns (UnserializableValue "NaN") /\
   oneVariant (toCallArgument (UnserializableValue "NaN"))) /\
  (helpers.convertBaseJSHandleTypes 1%positive (helpers.mkBaseJSHandle 1%positive false (ro "" ""))
    = returns (PlainValue "7") /\
   (oneVariant (toCallArgument (PlainValue "7")) <-> "7" <> "") /\
   populated (toCallArgument (PlainValue "7")) = 1%nat) /\
  (helpers.convertBaseJSHandleTypes 1%positive (helpers.mkBaseJSHandle 1%positive false (ro "" "obj"))
    = returns (RemoteObjectReference "obj") /\
   oneVariant (toCallArgument (RemoteObjectReference "obj"))).
Proof.
  intros ro. refine (conj _ (conj _ (conj _ (conj _ _)))).
  - apply (convertBaseJSHandleTypes_spec 1%positive (helpers.mkBaseJSHandle 2%positive true (ro "" "obj"))).
    simpl. lia.
  - apply (convertBaseJSHandleTypes_spec 1%positive (helpers.mkBaseJSHandle 1%positive true (ro "" "obj")));
      reflexivity.
  - pose proof (convertBaseJSHandleTypes_spec 1%positive
                  (helpers.mkBaseJSHandle 1%positive false (ro "NaN" "obj")))
      as (_ & _ & H & _).
    apply H; [reflexivity | reflexivity | simpl; discriminate].
  - pose proof (convertBaseJSHandleTypes_spec 1%positive
                  (helpers.mkBaseJSHandle 1%positive false (ro "" "")))
      as (_ & _ & _ & H & _).
    apply H; reflexivity.
  - pose proof (convertBaseJSHandleTypes_spec 1%positive
                  (helpers.mkBaseJSHandle 1%positive false (ro "" "obj")))
      as (_ & _ & _ & _ & H).
    apply H; [reflexivity | reflexivity | reflexivity | simpl; discriminate].
Defined.

(** C7 as stated fails: a live handle of the calling context with no
    unserializable value, no object id and an empty inline value gives
    the struct with no field set, which is the struct of each of the
    three variants and of no single one. *)
Lemma convertBaseJSHandleTypes_empty_value :
  let h := helpers.mkBaseJSHandle 1%positive false (cdpruntime.mkRemoteObject "" "" "") in
  helpers.execCtx h = 1%positive /\ helpers.disposed h = false /\
  helpers.convertBaseJSHandleTypes 1%positive h
  = (Some (cdpruntime.mkCallArgument "" "" ""), None) /\
  populated (cdpruntime.mkCallArgument "" "" "") = 0%nat /\
  ~ oneVariant (cdpruntime.mkCallArgument "" "" "") /\
  helpers.convertBaseJSHandleTypes 1%positive h = returns (PlainValue "") /\
  helpers.convertBaseJSHandleTypes 1%positive h = returns (UnserializableValue "") /\
  helpers.convertBaseJSHandleTypes 1%positive h = returns (RemoteObjectReference "").
Proof.
  cbv zeta.
  refine (conj eq_refl (conj eq_refl (conj eq_refl (conj eq_refl (conj _
            (conj eq_refl (conj eq_refl eq_refl))))))).
  rewrite oneVariant_populated. discriminate.
Qed.

(** ** Numbers as call arguments *)

Section Numbers.

Variable Exported : Type.
Variable json_Marshal_int64 : Z -> string * option error.
Variable json_Marshal_float64 : spec_float -> string * option error.
Variable json_Marshal : Exported -> string * option error.
Variable ctx : helpers.ExecutionContextPtr.

Local Abbreviation conv :=
  (helpers.convertArgument Exported json_Marshal_int64 json_Marshal_float64 json_Marshal ctx).

(** The comparison value of the first test is negative zero. *)
Lemma negative_zero_bits :
  math.Float64frombits (Z.lor 0 (Z.shiftl 1 63)) = S754_zero true.
Proof. reflexivity. Qed.

(** IEEE equality does not tell the two zeros apart. *)
Lemma zero_eq_negative_zero (f : spec_float) :
  SFeqb f (S754_zero true) = SFeqb f (S754_zero false).
Proof. destruct f as [s|s| |s m e]; reflexivity. Qed.

Lemma eq_zero_inv (f : spec_float) :
  SFeqb f (S754_zero false) = true -> exists s, f = S754_zero s.
Proof.
  destruct f as [s|s| |s m e]; simpl; intros H.
  - now exists s.
  - destruct s; discriminate H.
  - discriminate H.
  - destruct s; discriminate H.
Qed.

(** A finite datum equals itself: it is not a NaN. *)
Lemma IsNaN_finite (s : bool) (m : positive) (e : Z) :
  math.IsNaN (S754_finite s m e) = false.
Proof.
  unfold math.IsNaN, SFeqb, SFcompare.
  rewrite Z.compare_refl.
  change (PosDef.Pos.compare_cont Eq m m) with (Pos.compare m m).
  rewrite Pos.compare_refl. now destruct s.
Qed.

(** C9. Positive zero is marshaled as the token of negative zero,
    because the comparison with negative zero also holds for positive
    zero; hence no float equal to zero becomes a plain value. *)
Theorem convertArgument_zero (f : spec_float) :
  SFeqb f (S754_zero false) = true ->
  conv (helpers.valueFloat Exported (S754_zero false)) = returns (UnserializableValue "-0") /\
  conv (helpers.valueFloat Exported f) = returns (UnserializableValue "-0") /\
  forall json, conv (helpers.valueFloat Exported f) <> returns (PlainValue json).
Proof.
  intros H. apply eq_zero_inv in H as [s ->].
  assert (E : forall s', conv (helpers.valueFloat Exported (S754_zero s')) =
                         returns (UnserializableValue "-0")) by (intros s'; reflexivity).
  rewrite !E. repeat split. intros json Hj. discriminate Hj.
Qed.

(** C4, the cases that hold and the one that does not: the tokens
    of NaN, negative zero and the two infinities, the big-integer
    literal of every [int64] above [math.MaxInt32], plain JSON for
    every other [int64] and for every non-zero finite float; positive
    zero, however, gets the token of negative zero instead of its
    JSON text. *)
Theorem convertArgument_numbers :
  conv (helpers.valueFloat Exported S754_nan) = returns (UnserializableValue "NaN") /\
  conv (helpers.valueFloat Exported (S754_zero true)) = returns (UnserializableValue "-0") /\
  conv (helpers.valueFloat Exported (S754_infinity false))
    = returns (UnserializableValue "Infinity") /\
  conv (helpers.valueFloat Exported (S754_infinity true))
    = returns (UnserializableValue "-Infinity") /\
  (forall i, (math.MaxInt32 < i)%Z ->
     conv (helpers.valueInt Exported i)
     = returns (UnserializableValue (NilEmpty.string_of_int (Z.to_int i) +:+ "n"))) /\
  conv (helpers.valueInt Exported 2147483648) = returns (UnserializableValue "2147483648n") /\
  (forall i, (i <= math.MaxInt32)%Z ->
     conv (helpers.valueInt Exported i)
     = (Some (toCallArgument (PlainValue (fst (json_Marshal_int64 i)))),
        snd (json_Marshal_int64 i))) /\
  (forall s m e,
     conv (helpers.valueFloat Exported (S754_finite s m e))
     = (Some (toCallArgument (PlainValue (fst (json_Marshal_float64 (S754_finite s m e))))),
        snd (json_Marshal_float64 (S754_finite s m e)))) /\
  conv (helpers.valueFloat Exported (S754_zero false)) = returns (UnserializableValue "-0") /\
  conv (helpers.valueFloat Exported (S754_zero false))
    <> (Some (toCallArgument (PlainValue (fst (json_Marshal_float64 (S754_zero false))))),
        snd (json_Marshal_float64 (S754_zero false))).
Proof.
  refine (conj _ (conj _ (conj _ (conj _ (conj _ (conj _ (conj _ (conj _ (conj _ _)))))))));
    try reflexivity.
  - intros i Hi. unfold conv, helpers.convertArgument, helpers.Sprintf_dn.
    apply Z.ltb_lt in Hi. now rewrite Hi.
  - intros i Hi. unfold conv, helpers.convertArgument.
    apply Z.ltb_ge in Hi. rewrite Hi. now destruct (json_Marshal_int64 i).
  - intros s m e. unfold conv, helpers.convertArgument.
    rewrite negative_zero_bits, IsNaN_finite.
    destruct s; simpl;
      now destruct (json_Marshal_float64 (S754_finite _ m e)).
  - unfold conv. simpl. intros H. discriminate H.
Qed.

End Numbers.

Lemma convertArgument_zero_witness :
  helpers.convertArgument unit marshalInt marshalFloat marshalUnit 1%positive
    (helpers.valueFloat unit (math.Float64frombits 0))
  = returns (UnserializableValue "-0").
Proof.
  apply (convertArgument_zero unit marshalInt marshalFloat marshalUnit 1%positive
           (math.Float64frombits 0)).
  reflexivity.
Defined.

Lemma convertArgument_numbers_witness :
  helpers.convertArgument unit marshalInt marshalFloat marshalUnit 1%positive
    (helpers.valueInt unit 4294967296)
  = returns (UnserializableValue "4294967296n") /\
  helpers.convertArgument unit marshalInt marshalFloat marshalUnit 1%positive
    (helpers.valueInt unit 2147483647)
  = returns (PlainValue "2147483647").
Proof.
  pose proof (convertArgument_numbers unit marshalInt marshalFloat marshalUnit 1%positive)
    as (_ & _ & _ & _ & Hbig & _ & Hsmall & _).
  split.
  - apply (Hbig 4294967296%Z). reflexivity.
  - apply (Hsmall 2147483647%Z). discriminate.
Defined.

(** ** Calls with a timeout *)

(** C10. When the surrounding context is cancelled before the inner
    function delivers anything, [callApiWithTimeout] returns
    [ErrTimedOut]; when its own timeout expires first, it returns a nil
    result and a nil error. *)
Theorem callApiWithTimeout_exits (T : Type) (timeout : Z)
    (occ : list (waiting.apiOccurrence T)) :
  waiting.callApiWithTimeout timeout (waiting.parentDone context_Canceled :: occ)
    = Some (None, Some ErrTimedOut) /\
  ((0 < timeout)%Z ->
   waiting.callApiWithTimeout timeout (waiting.timeoutExpired :: occ) = Some (None, None)) /\
  waiting.callApiWithTimeout timeout (waiting.parentDone context_DeadlineExceeded :: occ)
    = Some (None, None).
Proof.
  split; [reflexivity|]. split; [|reflexivity].
  intros Ht. apply Z.ltb_lt in Ht. simpl. now rewrite Ht.
Qed.

Lemma callApiWithTimeout_exits_witness :
  waiting.callApiWithTimeout 30000
    [waiting.timeoutExpired; waiting.resultSent (Some 1%nat)] = Some (None, None).
Proof.
  pose proof (callApiWithTimeout_exits nat 30000 [waiting.resultSent (Some 1%nat)])
    as (_ & Hdeadline & _).
  apply Hdeadline. reflexivity.
Defined.

(** Without a timeout of its own the call has no timer: it waits for
    the inner function or for the surrounding context. *)
Lemma callApiWithTimeout_no_timer (T : Type) (timeout : Z)
    (occ : list (waiting.apiOccurrence T)) :
  (timeout <= 0)%Z ->
  waiting.callApiWithTimeout timeout (waiting.timeoutExpired :: occ)
  = waiting.callApiWithTimeout timeout occ.
Proof. intros Ht. apply Z.ltb_ge in Ht. simpl. now rewrite Ht. Qed.

(** ** Waiting for an event *)

Section WaitForEvent.

Variable T : Type.
Implicit Types (events : list string) (predicateFn : option (waiting.any T -> bool)).
Implicit Types (occ pre post : list (waiting.occurrence T)) (ev : waiting.Event T).

(** Events of other types are skipped. *)
Lemma waitForEvent_quiet events predicateFn pre occ :
  waiting.quiet events pre = true ->
  waiting.waitForEvent events predicateFn (pre ++ occ)
  = waiting.waitForEvent events predicateFn occ.
Proof.
  induction pre as [|o pre IH]; intros Hq; [reflexivity|].
  destruct o as [ev| |]; simpl in Hq; try discriminate Hq.
  apply andb_true_iff in Hq as [Hev Hq].
  simpl. unfold waiting.handleEvent.
  apply negb_true_iff in Hev. rewrite Hev. now apply IH.
Qed.

(** The handler goroutine sends at most once. *)
Lemma handlerSends_at_most_one events predicateFn occ :
  (length (waiting.handlerSends events predicateFn occ) <= 1)%nat.
Proof.
  induction occ as [|o occ IH]; simpl; [lia|].
  destruct o as [ev| |]; simpl; try lia.
  destruct (waiting.handleEvent events predicateFn ev); simpl; lia.
Qed.


End WaitForEvent.



(** Without a predicate the caller gets nil, not the payload. *)
Lemma waitForEvent_no_predicate_returns_nil :
  waiting.waitForEvent ["load"] None
    [waiting.emitted (waiting.mkEvent "load" (Some 1%nat))] = Some (None, None).
Proof. reflexivity. Qed.

(** ** Aborted navigation *)

(** C8. For a frame with a pending document, the abort handler
    emits one [NavigationEvent] whose [newDocument] is that document,
    so it is not nil and has the frame's pending document id, and
    afterwards the frame's own [pendingDocument] is nil. *)
Theorem frameAbortedNavigation_emits_pending
    (m : frames.FrameManager) (frameID : frames.FrameID) (frame : frames.Frame)
    (doc : frames.DocumentInfo) (errorText : string) :
  frames.frames m !! frameID = Some frame ->
  frames.pendingDocument frame = Some doc ->
  let '(m', emitted) :=
    frames.frameAbortedNavigation m frameID errorText (frames.documentID doc) in
  (exists ne, emitted = [ne] /\
              frames.newDocument ne = Some doc /\
              frames.documentID <$> frames.newDocument ne = Some (frames.documentID doc)) /\
  (frames.pendingDocument <$> (frames.frames m' !! frameID)) = Some None.
Proof.
  intros Hf Hd. unfold frames.frameAbortedNavigation. rewrite Hf. split.
  - eexists. split; [reflexivity|]. simpl. rewrite Hd. split; reflexivity.
  - simpl. now rewrite lookup_insert_eq.
Qed.

Lemma frameAbortedNavigation_emits_pending_witness :
  let frame := frames.mkFrame "42" (Some (frames.mkDocumentInfo "42")) in
  let m := frames.mkFrameManager {[ "42" := frame ]} in
  let '(m', emitted) := frames.frameAbortedNavigation m "42" "any error" "42" in
  (exists ne, emitted = [ne] /\
              frames.newDocument ne = Some (frames.mkDocumentInfo "42") /\
              frames.documentID <$> frames.newDocument ne = Some "42") /\
  (frames.pendingDocument <$> (frames.frames m' !! "42")) = Some None.
Proof.
  intros frame m.
  apply (frameAbortedNavigation_emits_pending m "42" frame
           (frames.mkDocumentInfo "42") "any error").
  - vm_compute. reflexivity.
  - reflexivity.
Defined.

(** ** Key resolution (later revision) *)

Lemma lor_shift_nonzero (m : Z) : (Z.lor m ModifierKeyShift =? 0)%Z = false.
Proof.
  apply Z.eqb_neq. intros H. apply Z.lor_eq_0_iff in H as [_ H]. discriminate H.
Qed.

Lemma keyDefinitionFromKey_Key (k : Keyboard.Keyboard) (key : keyboardlayout.KeyInput) :
  keyboardlayout.Key (Keyboard.keyDefinitionFromKey k key)
  = if resolution.shiftRule k key
    then keyboardlayout.ShiftKey (fst (resolution.resolve (Keyboard.layout k) key))
    else keyboardlayout.Key (fst (resolution.resolve (Keyboard.layout k) key)).
Proof.
  unfold Keyboard.keyDefinitionFromKey, resolution.shiftRule, resolution.resolve,
    resolution.shiftHeld.
  destruct (keyboardlayout.Keys (Keyboard.layout k) !! key) as [d|]; simpl.
  - rewrite orb_comm.
    destruct (Keyboard.isKeyX key), (Z.land (Keyboard.modifiers k) ModifierKeyShift =? 0)%Z,
      (String.eqb (keyboardlayout.ShiftKey d) ""), (String.eqb (keyboardlayout.Key d) "") eqn:E;
      simpl; case_conditions; try reflexivity;
      apply String.eqb_eq in E; now rewrite E.
  - destruct (keyboardlayout.KeyDefinitionOf (Keyboard.layout k) key) as [d ok].
    destruct ok; simpl.
    + rewrite orb_comm.
      destruct (Keyboard.isKeyX key), (Z.land (Keyboard.modifiers k) ModifierKeyShift =? 0)%Z,
        (String.eqb (keyboardlayout.ShiftKey d) ""), (String.eqb (keyboardlayout.Key d) "") eqn:E;
        simpl; case_conditions; try reflexivity;
        apply String.eqb_eq in E; now rewrite E.
    + rewrite lor_shift_nonzero.
      set (d' := keyboardlayout.ShiftKeyDefinition (Keyboard.layout k) key).
      rewrite orb_true_r.
      destruct (String.eqb (keyboardlayout.ShiftKey d') ""),
        (String.eqb (keyboardlayout.Key d') "") eqn:E;
        simpl; case_conditions; try reflexivity;
        apply String.eqb_eq in E; now rewrite E.
Qed.

Lemma keyDefinitionFromKey_Text (k : Keyboard.Keyboard) (key : keyboardlayout.KeyInput) :
  keyboardlayout.Text (Keyboard.keyDefinitionFromKey k key)
  = if resolution.otherModifierHeld k then ""
    else if resolution.shiftRule k key
         then keyboardlayout.ShiftKey (fst (resolution.resolve (Keyboard.layout k) key))
         else resolution.baseText (fst (resolution.resolve (Keyboard.layout k) key)).
Proof.
  unfold Keyboard.keyDefinitionFromKey, resolution.shiftRule, resolution.resolve,
    resolution.shiftHeld, resolution.otherModifierHeld, resolution.baseText.
  destruct (Z.land (Keyboard.modifiers k) (Z.lnot ModifierKeyShift) =? 0)%Z;
    destruct (keyboardlayout.Keys (Keyboard.layout k) !! key) as [d|]; simpl.
  - rewrite orb_comm.
    destruct (Keyboard.isKeyX key), (Z.land (Keyboard.modifiers k) ModifierKeyShift =? 0)%Z,
      (String.eqb (keyboardlayout.ShiftKey d) ""), (String.eqb (keyboardlayout.Text d) ""),
      (String.length (keyboardlayout.Key d) =? 1)%nat;
      simpl; case_conditions; reflexivity.
  - destruct (keyboardlayout.KeyDefinitionOf (Keyboard.layout k) key) as [d ok].
    destruct ok; simpl.
    + rewrite orb_comm.
      destruct (Keyboard.isKeyX key), (Z.land (Keyboard.modifiers k) ModifierKeyShift =? 0)%Z,
        (String.eqb (keyboardlayout.ShiftKey d) ""), (String.eqb (keyboardlayout.Text d) ""),
        (String.length (keyboardlayout.Key d) =? 1)%nat;
        simpl; case_conditions; reflexivity.
    + rewrite lor_shift_nonzero.
      set (d' := keyboardlayout.ShiftKeyDefinition (Keyboard.layout k) key).
      rewrite orb_true_r.
      destruct (String.eqb (keyboardlayout.ShiftKey d') ""),
        (String.eqb (keyboardlayout.Text d') ""),
        (String.length (keyboardlayout.Key d') =? 1)%nat;
        simpl; case_conditions; reflexivity.
  - case_conditions; reflexivity.
  - destruct (keyboardlayout.KeyDefinitionOf (Keyboard.layout k) key) as [d ok].
    destruct ok; simpl; case_conditions; reflexivity.
Qed.

Lemma keyDefinitionFromKey_Code (k : Keyboard.Keyboard) (key : keyboardlayout.KeyInput) :
  keyboardlayout.Code (Keyboard.keyDefinitionFromKey k key) = key.
Proof.
  unfold Keyboard.keyDefinitionFromKey.
  destruct (keyboardlayout.Keys (Keyboard.layout k) !! key) as [d|]; simpl.
  - destruct (String.eqb key "") eqn:E; simpl; case_conditions; try reflexivity;
      apply String.eqb_eq in E; now rewrite E.
  - destruct (keyboardlayout.KeyDefinitionOf (Keyboard.layout k) key) as [d ok].
    destruct ok; simpl;
      destruct (String.eqb key "") eqn:E; simpl; case_conditions; try reflexivity;
      apply String.eqb_eq in E; now rewrite E.
Qed.

(** C2. The shift value of the entry replaces [Key] and [Text]
    exactly when the token was resolved through the shift layer or is
    one of the codes KeyA..KeyZ, shift is active, and the entry defines
    a shift value; [Text] is then that shift value unless another
    modifier empties it.  Hence a token that is no letter code and was
    not resolved through the shift layer keeps its unshifted [Key] and
    [Text] whatever the state of Shift, and a letter code with Shift
    held and a shift value defined gets the shift value. *)
Theorem keyDefinitionFromKey_shift_rule
    (k : Keyboard.Keyboard) (key : keyboardlayout.KeyInput) :
  let src := fst (resolution.resolve (Keyboard.layout k) key) in
  let foundInShift := snd (resolution.resolve (Keyboard.layout k) key) in
  let keyDef := Keyboard.keyDefinitionFromKey k key in
  (keyboardlayout.Key keyDef
   = if resolution.shiftRule k key then keyboardlayout.ShiftKey src
     else keyboardlayout.Key src) /\
  (keyboardlayout.Text keyDef
   = if resolution.otherModifierHeld k then ""
     else if resolution.shiftRule k key then keyboardlayout.ShiftKey src
          else resolution.baseText src) /\
  (Keyboard.isKeyX key = false -> foundInShift = false ->
   keyboardlayout.Key keyDef = keyboardlayout.Key src /\
   (keyboardlayout.Text keyDef = resolution.baseText src \/
    keyboardlayout.Text keyDef = "")) /\
  (Keyboard.isKeyX key = true -> resolution.shiftHeld k = true ->
   keyboardlayout.ShiftKey src <> "" ->
   keyboardlayout.Key keyDef = keyboardlayout.ShiftKey src /\
   (resolution.otherModifierHeld k = false ->
    keyboardlayout.Text keyDef = keyboardlayout.ShiftKey src)).
Proof.
  intros src foundInShift keyDef.
  pose proof (keyDefinitionFromKey_Key k key) as HK.
  pose proof (keyDefinitionFromKey_Text k key) as HT.
  fold src keyDef in HK, HT.
  split; [exact HK|]. split; [exact HT|]. split.
  - intros HX HF.
    assert (R : resolution.shiftRule k key = false).
    { unfold resolution.shiftRule.
      destruct (resolution.resolve (Keyboard.layout k) key) as [d f] eqn:E.
      subst foundInShift. simpl in HF. subst f. now rewrite HX. }
    rewrite R in HK, HT. split; [exact HK|].
    destruct (resolution.otherModifierHeld k); [now right | now left].
  - intros HX HS HN.
    assert (R : resolution.shiftRule k key = true).
    { unfold resolution.shiftRule.
      destruct (resolution.resolve (Keyboard.layout k) key) as [d f] eqn:E.
      subst src. simpl in HN. rewrite HX, HS, !orb_true_r. simpl.
      apply negb_true_iff. now apply String.eqb_neq. }
    rewrite R in HK, HT. split; [exact HK|].
    intros HO. now rewrite HO in HT.
Qed.

Lemma keyDefinitionFromKey_shift_rule_witness :
  (keyboardlayout.Key (Keyboard.keyDefinitionFromKey shifted "2") = "2" /\
   (keyboardlayout.Text (Keyboard.keyDefinitionFromKey shifted "2") = "2" \/
    keyboardlayout.Text (Keyboard.keyDefinitionFromKey shifted "2") = "")) /\
  (keyboardlayout.Key (Keyboard.keyDefinitionFromKey shifted "KeyA") = "A" /\
   (resolution.otherModifierHeld shifted = false ->
    keyboardlayout.Text (Keyboard.keyDefinitionFromKey shifted "KeyA") = "A")).
Proof.
  split.
  - pose proof (keyDefinitionFromKey_shift_rule shifted "2") as (_ & _ & H & _).
    apply H; reflexivity.
  - pose proof (keyDefinitionFromKey_shift_rule shifted "KeyA") as (_ & _ & _ & H).
    apply H; [reflexivity | reflexivity | discriminate].
Defined.

(** On the sample layout with Shift held, the digit key gives "2"
    under both of its names, the letter code gives "A", and the at
    sign, found by its shift value, gives "@" even without Shift. *)
Example keyDefinitionFromKey_sample :
  keyboardlayout.Text (Keyboard.keyDefinitionFromKey shifted "2") = "2" /\
  keyboardlayout.Text (Keyboard.keyDefinitionFromKey shifted "Digit2") = "2" /\
  keyboardlayout.Text (Keyboard.keyDefinitionFromKey shifted "KeyA") = "A" /\
  keyboardlayout.Text
    (Keyboard.keyDefinitionFromKey (Keyboard.mkKeyboard [] 0 ∅ "us" sample.us) "@") = "@".
Proof. vm_compute. repeat split. Qed.

(** The earlier revision has no such rule: with Shift held the digit
    key gives the at sign. *)
Example keyDefinitionFromKey0_sample :
  keyboardlayout.Text
    (Keyboard0.keyDefinitionFromKey sample.GetKeyboardLayout
       (Keyboard0.mkKeyboard [] ModifierKeyShift ∅ "us") "Digit2") = "@".
Proof. vm_compute. reflexivity. Qed.

(** ** Modifier state *)

Lemma land_lor_lnot (m b : Z) : Z.land (Z.lor m b) (Z.lnot b) = Z.land m (Z.lnot b).
Proof.
  apply Z.bits_inj'. intros n Hn.
  rewrite !Z.land_spec, Z.lor_spec, Z.lnot_spec by assumption.
  destruct (Z.testbit m n), (Z.testbit b n); reflexivity.
Qed.

(** The bit of a key name is one of the four modifier bits or zero. *)
Lemma modifierBitFromKeyName_cases (key : string) :
  (key = "Alt" /\ modifierBitFromKeyName key = ModifierKeyAlt) \/
  (key = "Control" /\ modifierBitFromKeyName key = ModifierKeyControl) \/
  (key = "Meta" /\ modifierBitFromKeyName key = ModifierKeyMeta) \/
  (key = "Shift" /\ modifierBitFromKeyName key = ModifierKeyShift) \/
  (key <> "Alt" /\ key <> "Control" /\ key <> "Meta" /\ key <> "Shift" /\
   modifierBitFromKeyName key = 0%Z).
Proof.
  unfold modifierBitFromKeyName.
  destruct (String.eqb_spec key "Alt"); [now left|].
  destruct (String.eqb_spec key "Control"); [now right; left|].
  destruct (String.eqb_spec key "Meta"); [now right; right; left|].
  destruct (String.eqb_spec key "Shift"); [now right; right; right; left|].
  now right; right; right; right.
Qed.

Section KeyboardState.

Variable Do : input.DispatchKeyEventParams -> option error.
Implicit Types (k : Keyboard.Keyboard) (key : string).

Lemma down_state k key :
  key ∈ keyboardlayout.ValidKeys (Keyboard.layout k) ->
  let keyDef := Keyboard.keyDefinitionFromKey k key in
  let k' := fst (Keyboard.down Do key k) in
  Keyboard.modifiers k'
    = Z.lor (Keyboard.modifiers k) (modifierBitFromKeyName (keyboardlayout.Key keyDef)) /\
  Keyboard.layout k' = Keyboard.layout k /\
  exists a, Keyboard.session k' = Keyboard.session k ++ [a] /\
            input.Code a = key /\ input.Type_ a <> input.KeyUp.
Proof.
  intros Hv keyDef k'. subst k'. unfold Keyboard.down.
  rewrite (bool_decide_eq_true_2 _ Hv). simpl.
  fold keyDef.
  match goal with |- context [Do ?a] => set (act := a) end.
  assert (Hc : input.Code act = key) by apply keyDefinitionFromKey_Code.
  assert (Ht : input.Type_ act <> input.KeyUp).
  { subst act. simpl. destruct (String.eqb _ _); discriminate. }
  destruct (Do act); simpl; (split; [reflexivity|]); (split; [reflexivity|]);
    exists act; auto.
Qed.

Lemma up_state k key :
  key ∈ keyboardlayout.ValidKeys (Keyboard.layout k) ->
  let keyDef := Keyboard.keyDefinitionFromKey k key in
  let k' := fst (Keyboard.up Do key k) in
  Keyboard.modifiers k'
    = Z.land (Keyboard.modifiers k)
        (Z.lnot (modifierBitFromKeyName (keyboardlayout.Key keyDef))) /\
  Keyboard.layout k' = Keyboard.layout k /\
  exists a, Keyboard.session k' = Keyboard.session k ++ [a] /\
            input.Code a = key /\ input.Type_ a = input.KeyUp.
Proof.
  intros Hv keyDef k'. subst k'. unfold Keyboard.up.
  rewrite (bool_decide_eq_true_2 _ Hv). simpl.
  fold keyDef.
  match goal with |- context [Do ?a] => set (act := a) end.
  assert (Hc : input.Code act = key) by apply keyDefinitionFromKey_Code.
  destruct (Do act); simpl; (split; [reflexivity|]); (split; [reflexivity|]);
    exists act; auto.
Qed.

(** In the later revision [down] sets the bit that the resolved key
    names and the matching [up] clears it, for every valid key whose
    resolved [Key] is the unmodified one (no shift substitution);
    a key that names no modifier leaves the state unchanged. *)
Lemma down_up_modifiers k key :
  key ∈ keyboardlayout.ValidKeys (Keyboard.layout k) ->
  keyboardlayout.ShiftKey (fst (resolution.resolve (Keyboard.layout k) key)) = "" ->
  let name := keyboardlayout.Key (fst (resolution.resolve (Keyboard.layout k) key)) in
  let k1 := fst (Keyboard.down Do key k) in
  let k2 := fst (Keyboard.up Do key k1) in
  Keyboard.modifiers k1 = Z.lor (Keyboard.modifiers k) (modifierBitFromKeyName name) /\
  Keyboard.modifiers k2 = Z.land (Keyboard.modifiers k) (Z.lnot (modifierBitFromKeyName name)) /\
  (modifierBitFromKeyName name = 0%Z ->
   Keyboard.modifiers k1 = Keyboard.modifiers k /\
   Keyboard.modifiers k2 = Keyboard.modifiers k).
Proof.
  intros Hv Hs name k1 k2.
  assert (NoRule : forall k0, Keyboard.layout k0 = Keyboard.layout k ->
                     keyboardlayout.Key (Keyboard.keyDefinitionFromKey k0 key) = name).
  { intros k0 Hl. rewrite keyDefinitionFromKey_Key.
    unfold resolution.shiftRule. rewrite Hl.
    destruct (resolution.resolve (Keyboard.layout k) key) as [d f] eqn:E.
    simpl in Hs. subst name. simpl. rewrite Hs. simpl. now rewrite andb_false_r. }
  destruct (down_state k key Hv) as (Hm1 & Hl1 & _). fold k1 in Hm1, Hl1.
  assert (Hv1 : key ∈ keyboardlayout.ValidKeys (Keyboard.layout k1)) by now rewrite Hl1.
  destruct (up_state k1 key Hv1) as (Hm2 & _ & _). fold k2 in Hm2.
  rewrite NoRule in Hm1 by reflexivity.
  rewrite NoRule in Hm2 by assumption.
  rewrite Hm1 in Hm2. rewrite land_lor_lnot in Hm2.
  split; [exact Hm1|]. split; [exact Hm2|].
  intros Hz. rewrite Hz in Hm1, Hm2.
  rewrite Z.lor_0_r in Hm1. change (Z.lnot 0) with (-1)%Z in Hm2.
  rewrite Z.land_m1_r in Hm2. now split.
Qed.

End KeyboardState.

(** In the earlier revision [down] updates the modifier state with
    the same statement as [up]: it clears the bit of the resolved key
    and can never set one. *)
Lemma down0_modifiers (GetKeyboardLayout : string -> keyboardlayout.KeyboardLayout)
    (Do : input.DispatchKeyEventParams -> option error)
    (k : Keyboard0.Keyboard) (key : string) :
  key ∈ keyboardlayout.ValidKeys (GetKeyboardLayout (Keyboard0.layoutName k)) ->
  let bit := modifierBitFromKeyName
               (keyboardlayout.Key (Keyboard0.keyDefinitionFromKey GetKeyboardLayout k key)) in
  Keyboard0.modifiers (fst (Keyboard0.down GetKeyboardLayout Do key k))
    = Z.land (Keyboard0.modifiers k) (Z.lnot bit) /\
  Keyboard0.modifiers (fst (Keyboard0.down GetKeyboardLayout Do key k))
    = Keyboard0.modifiers (fst (Keyboard0.up GetKeyboardLayout Do key k)).
Proof.
  intros Hv bit. unfold Keyboard0.down, Keyboard0.up.
  rewrite (bool_decide_eq_true_2 _ Hv). simpl.
  split.
  - now destruct (Do _).
  - destruct (Do _); destruct (Do _); reflexivity.
Qed.

(** C5 at the earlier revision's [down]: pressing the left Shift key
    on a fresh keyboard leaves the modifier state empty, and pressing
    it while the Shift bit is set clears the bit; the later revision
    sets the bit in both cases. *)
Theorem down0_does_not_set_modifier :
  let down0 := Keyboard0.down sample.GetKeyboardLayout sample.accept in
  let down1 := Keyboard.down sample.accept in
  "ShiftLeft" ∈ keyboardlayout.ValidKeys sample.us /\
  keyboardlayout.Key
    (Keyboard0.keyDefinitionFromKey sample.GetKeyboardLayout Keyboard0.NewKeyboard "ShiftLeft")
    = "Shift" /\
  Keyboard0.modifiers (fst (down0 "ShiftLeft" Keyboard0.NewKeyboard)) = 0%Z /\
  Keyboard0.modifiers
    (fst (down0 "ShiftLeft" (Keyboard0.mkKeyboard [] ModifierKeyShift ∅ "us"))) = 0%Z /\
  Keyboard.modifiers
    (fst (down1 "ShiftLeft" (Keyboard.mkKeyboard [] 0 ∅ "us" sample.us))) = ModifierKeyShift /\
  Keyboard.modifiers (fst (down1 "ShiftLeft" shifted)) = ModifierKeyShift.
Proof. vm_compute. repeat split. Qed.

(** ** Combo presses *)

Section ComboPress.

Variable Do : input.DispatchKeyEventParams -> option error.
Hypothesis Do_succeeds : forall a, Do a = None.
Implicit Types (k : Keyboard.Keyboard) (kk : list string).

Lemma down_succeeds k key :
  key ∈ keyboardlayout.ValidKeys (Keyboard.layout k) ->
  snd (Keyboard.down Do key k) = None.
Proof.
  intros Hv. unfold Keyboard.down.
  rewrite (bool_decide_eq_true_2 _ Hv). simpl. now rewrite Do_succeeds.
Qed.

Lemma up_succeeds k key :
  key ∈ keyboardlayout.ValidKeys (Keyboard.layout k) ->
  snd (Keyboard.up Do key k) = None.
Proof.
  intros Hv. unfold Keyboard.up.
  rewrite (bool_decide_eq_true_2 _ Hv). simpl. now rewrite Do_succeeds.
Qed.

(** The first loop sends one down command per key, in order. *)
Lemma comboPress_downs_order kk : forall k,
  Forall (fun key => key ∈ keyboardlayout.ValidKeys (Keyboard.layout k)) kk ->
  exists k' downs,
    Keyboard.comboPress_downs Do kk k = (k', None) /\
    Keyboard.layout k' = Keyboard.layout k /\
    Keyboard.session k' = Keyboard.session k ++ downs /\
    Forall isDown downs /\ map input.Code downs = kk.
Proof.
  induction kk as [|key kk IH]; intros k Hv.
  - exists k, []. simpl. rewrite app_nil_r. repeat split; constructor.
  - inversion Hv as [|? ? Hkey Hrest]; subst.
    destruct (down_state Do k key Hkey) as (_ & Hl & a & Hs & Hc & Ht).
    pose proof (down_succeeds k key Hkey) as Hok.
    simpl. destruct (Keyboard.down Do key k) as [k1 e]. simpl in *. subst e.
    destruct (IH k1) as (k' & downs & Hr & Hl' & Hs' & Hd & Hm).
    { now rewrite Hl. }
    exists k', (a :: downs). rewrite Hr.
    split; [reflexivity|]. split; [congruence|].
    split; [rewrite Hs', Hs, <- app_assoc; reflexivity|].
    split; [constructor; assumption|]. simpl. now rewrite Hc, Hm.
Qed.

(** The second loop sends one up command per index, for the key at
    the mirrored position. *)
Lemma comboPress_ups_order kk ixs : forall k,
  Forall (fun key => key ∈ keyboardlayout.ValidKeys (Keyboard.layout k))
         (map (fun i => nth (length kk - i - 1) kk "") ixs) ->
  exists k' ups,
    Keyboard.comboPress_ups Do kk ixs k = (k', None) /\
    Keyboard.layout k' = Keyboard.layout k /\
    Keyboard.session k' = Keyboard.session k ++ ups /\
    Forall isUp ups /\
    map input.Code ups = map (fun i => nth (length kk - i - 1) kk "") ixs.
Proof.
  induction ixs as [|i ixs IH]; intros k Hv.
  - exists k, []. simpl. rewrite app_nil_r. repeat split; constructor.
  - simpl in Hv. inversion Hv as [|? ? Hkey Hrest]; subst.
    destruct (up_state Do k _ Hkey) as (_ & Hl & a & Hs & Hc & Ht).
    pose proof (up_succeeds k _ Hkey) as Hok.
    simpl. destruct (Keyboard.up Do _ k) as [k1 e]. simpl in *. subst e.
    destruct (IH k1) as (k' & ups & Hr & Hl' & Hs' & Hd & Hm).
    { now rewrite Hl. }
    exists k', (a :: ups). rewrite Hr.
    split; [reflexivity|]. split; [congruence|].
    split; [rewrite Hs', Hs, <- app_assoc; reflexivity|].
    split; [constructor; assumption|]. simpl. now rewrite Hc, Hm.
Qed.

(** Indexing from the end while counting up reads the slice backwards. *)
Lemma mirrored_indices kk :
  map (fun i => nth (length kk - i - 1) kk "") (seq 0 (length kk)) = rev kk.
Proof.
  apply nth_ext with (d := "") (d' := "").
  - now rewrite length_map, length_seq, length_rev.
  - intros n Hn. rewrite length_map, length_seq in Hn.
    set (f := fun i => nth (length kk - i - 1) kk "").
    rewrite (nth_indep _ "" (f 0%nat)) by now rewrite length_map, length_seq.
    rewrite (map_nth f), seq_nth by assumption. subst f. simpl.
    rewrite rev_nth by assumption. f_equal. lia.
Qed.

(** C6, as the code has it.  When every segment of the combo string
    is a valid key of the layout, no dispatch fails and the delay, if
    any, is not cut short by the context, [comboPress] succeeds and
    sends exactly the down commands of the segments from left to
    right followed by the up commands of the segments from right to
    left. *)
Theorem comboPress_order (keys : string) (opts : Keyboard.KeyboardOptions)
    (sel : Keyboard.delaySelect) k :
  Forall (fun key => key ∈ keyboardlayout.ValidKeys (Keyboard.layout k)) (split keys) ->
  Keyboard.Delay opts = 0%Z \/ sel = Keyboard.timerC ->
  exists k' downs ups,
    Keyboard.comboPress Do keys opts sel k = (k', None) /\
    Keyboard.session k' = Keyboard.session k ++ downs ++ ups /\
    Forall isDown downs /\ map input.Code downs = split keys /\
    Forall isUp ups /\ map input.Code ups = rev (split keys).
Proof.
  intros Hv Hdelay. unfold Keyboard.comboPress.
  assert (Hgo : negb (Keyboard.Delay opts =? 0)%Z
                && match sel with Keyboard.ctxDone => true | Keyboard.timerC => false end
                = false).
  { destruct Hdelay as [-> | ->]; [reflexivity | apply andb_false_r]. }
  rewrite Hgo.
  destruct (comboPress_downs_order (split keys) k Hv)
    as (k1 & downs & Hr1 & Hl1 & Hs1 & Hd & Hm1).
  rewrite Hr1.
  destruct (comboPress_ups_order (split keys) (seq 0 (length (split keys))) k1)
    as (k2 & ups & Hr2 & Hl2 & Hs2 & Hu & Hm2).
  { rewrite mirrored_indices, Hl1. now apply Forall_rev. }
  exists k2, downs, ups. rewrite Hr2.
  split; [reflexivity|].
  split; [rewrite Hs2, Hs1, <- app_assoc; reflexivity|].
  split; [assumption|]. split; [assumption|]. split; [assumption|].
  now rewrite Hm2, mirrored_indices.
Qed.

End ComboPress.

Lemma sample_accept_succeeds (a : input.DispatchKeyEventParams) : sample.accept a = None.
Proof. reflexivity. Qed.

Lemma comboPress_order_witness :
  exists k' downs ups,
    Keyboard.comboPress sample.accept "ShiftLeft+KeyA" (Keyboard.mkKeyboardOptions 0)
      Keyboard.timerC fresh = (k', None) /\
    Keyboard.session k' = Keyboard.session fresh ++ downs ++ ups /\
    Forall isDown downs /\ map input.Code downs = split "ShiftLeft+KeyA" /\
    Forall isUp ups /\ map input.Code ups = rev (split "ShiftLeft+KeyA").
Proof.
  apply (comboPress_order sample.accept sample_accept_succeeds "ShiftLeft+KeyA"
           (Keyboard.mkKeyboardOptions 0) Keyboard.timerC fresh).
  - repeat constructor; apply bool_decide_eq_true_1; vm_compute; reflexivity.
  - left. reflexivity.
Defined.

(** The commands of Shift+A on the sample layout, by code: both keys
    go down from left to right and come up from right to left, and the
    letter is sent with the Shift bit and the shifted text. *)
Example comboPress_sample :
  let k' := fst (Keyboard.comboPress sample.accept "ShiftLeft+KeyA"
                   (Keyboard.mkKeyboardOptions 0) Keyboard.timerC fresh) in
  map (fun a => (input.Type_ a, input.Code a, input.Modifiers a, input.Text a))
      (Keyboard.session k')
  = [ (input.KeyRawDown, "ShiftLeft", 8%Z, "");
      (input.KeyDown, "KeyA", 8%Z, "A");
      (input.KeyUp, "KeyA", 8%Z, "");
      (input.KeyUp, "ShiftLeft", 0%Z, "") ].
Proof. vm_compute. reflexivity. Qed.

(** C6 as stated fails: with a delay configured and the keyboard's
    context done before the timer fires, [comboPress] returns
    [context.Canceled] and sends no command, although every segment is
    a valid key and the session accepts every command. *)
Lemma comboPress_cancelled_delay_sends_nothing :
  Forall (fun key => key ∈ keyboardlayout.ValidKeys (Keyboard.layout fresh))
         (split "ShiftLeft+KeyA") /\
  (forall a, sample.accept a = None) /\
  Keyboard.comboPress sample.accept "ShiftLeft+KeyA" (Keyboard.mkKeyboardOptions 100)
    Keyboard.ctxDone fresh = (fresh, Some context_Canceled) /\
  Keyboard.session
    (fst (Keyboard.comboPress sample.accept "ShiftLeft+KeyA" (Keyboard.mkKeyboardOptions 100)
            Keyboard.ctxDone fresh)) = [].
Proof.
  split; [|split; [|split]].
  - repeat constructor; apply bool_decide_eq_true_1; vm_compute; reflexivity.
  - reflexivity.
  - reflexivity.
  - reflexivity.
Qed.

(** ** Quotes *)


Lemma get_snoc (t : string) (c : ascii) :
  String.get (String.length t) (t +:+ String c "") = Some c.
Proof.
  induction t as [|a t IH]; [reflexivity|].
  rewrite append_cons. simpl. exact IH.
Qed.


Lemma snoc_decompose (s : string) :
  s <> "" -> exists t c, s = t +:+ String c "".
Proof.
  induction s as [|a s IH]; intros Hs; [congruence|].
  destruct s as [|b s].
  - now exists "", a.
  - destruct IH as (t & c & E); [discriminate|].
    exists (String a t), c. rewrite append_cons. now rewrite <- E.
Qed.

(** What [TrimQuotes] computes on a string of at least two bytes,
    written as its first byte, its middle and its last byte. *)
Lemma TrimQuotes_framed (c0 c : ascii) (t : string) :
  helpers_misc.TrimQuotes (String c0 (t +:+ String c ""))
  = if Ascii.eqb c0 c
       && (Ascii.eqb c helpers_misc.doubleQuote || Ascii.eqb c helpers_misc.singleQuote)
    then t
    else String c0 (t +:+ String c "").
Proof.
  unfold helpers_misc.TrimQuotes.
  assert (L : String.length (String c0 (t +:+ String c "")) = S (S (String.length t))).
  { simpl. rewrite length_append. simpl. lia. }
  rewrite L.
  replace (S (S (String.length t)) - 1)%nat with (S (String.length t)) by lia.
  replace (S (String.length t) - 1)%nat with (String.length t) by lia.
  change (2 <=? S (S (String.length t)))%nat with true.
  change (String.get (S (String.length t)) (String c0 (t +:+ String c "")))
    with (String.get (String.length t) (t +:+ String c "")).
  rewrite get_snoc.
  change (String.get 0 (String c0 (t +:+ String c ""))) with (Some c0).
  change (String.substring 1 (String.length t) (String c0 (t +:+ String c "")))
    with (String.substring 0 (String.length t) (t +:+ String c "")).
  now rewrite substring_prefix.
Qed.

(** X1. A string enclosed in a pair of double quotes or in a pair of
    single quotes loses exactly that pair, whatever lies between,
    quotes included. *)
Theorem TrimQuotes_balanced (q : ascii) (t : string) :
  q = helpers_misc.doubleQuote \/ q = helpers_misc.singleQuote ->
  helpers_misc.TrimQuotes (String q (t +:+ String q "")) = t.
Proof.
  intros Hq. rewrite TrimQuotes_framed, Ascii.eqb_refl.
  destruct Hq as [-> | ->]; reflexivity.
Qed.

Lemma TrimQuotes_balanced_witness :
  helpers_misc.TrimQuotes
    (String helpers_misc.singleQuote ("arg" +:+ String helpers_misc.singleQuote ""))
  = "arg".
Proof.
  apply (TrimQuotes_balanced helpers_misc.singleQuote "arg").
  right. reflexivity.
Defined.

(** X2. [TrimQuotes] changes a string only by removing one matching
    pair of quotes from its two ends: strings shorter than two bytes,
    strings whose first and last bytes differ and strings whose ends
    are not quotes come back unchanged. *)
Theorem TrimQuotes_cases (s : string) :
  (helpers_misc.TrimQuotes s = s \/
   exists q t,
     (q = helpers_misc.doubleQuote \/ q = helpers_misc.singleQuote) /\
     s = String q (t +:+ String q "") /\ helpers_misc.TrimQuotes s = t) /\
  ((String.length s < 2)%nat -> helpers_misc.TrimQuotes s = s) /\
  (forall c0 c t, s = String c0 (t +:+ String c "") -> c0 <> c ->
                  helpers_misc.TrimQuotes s = s) /\
  (forall c0 c t, s = String c0 (t +:+ String c "") ->
                  c <> helpers_misc.doubleQuote -> c <> helpers_misc.singleQuote ->
                  helpers_misc.TrimQuotes s = s).
Proof.
  assert (Short : (String.length s < 2)%nat -> helpers_misc.TrimQuotes s = s).
  { intros Hl. unfold helpers_misc.TrimQuotes.
    apply Nat.leb_gt in Hl. now rewrite Hl. }
  split; [|split; [exact Short|split]].
  - destruct s as [|c0 s1]; [left; reflexivity|].
    destruct (string_dec s1 "") as [-> | Hne]; [left; reflexivity|].
    destruct (snoc_decompose s1 Hne) as (t & c & ->).
    rewrite TrimQuotes_framed.
    destruct (Ascii.eqb c0 c) eqn:E; [|left; reflexivity].
    apply Ascii.eqb_eq in E. subst c0. simpl.
    destruct (Ascii.eqb c helpers_misc.doubleQuote) eqn:E1.
    { apply Ascii.eqb_eq in E1. subst c. right.
      exists helpers_misc.doubleQuote, t. auto. }
    destruct (Ascii.eqb c helpers_misc.singleQuote) eqn:E2.
    { apply Ascii.eqb_eq in E2. subst c. right.
      exists helpers_misc.singleQuote, t. auto. }
    left. reflexivity.
  - intros c0 c t -> Hne. rewrite TrimQuotes_framed.
    apply Ascii.eqb_neq in Hne. now rewrite Hne.
  - intros c0 c t -> H1 H2. rewrite TrimQuotes_framed.
    apply Ascii.eqb_neq in H1, H2. rewrite H1, H2. now rewrite andb_false_r.
Qed.

Lemma TrimQuotes_cases_witness :
  helpers_misc.TrimQuotes (String helpers_misc.doubleQuote "'arg")
  = String helpers_misc.doubleQuote "'arg".
Proof.
  pose proof (TrimQuotes_cases (String helpers_misc.doubleQuote "'arg"))
    as (_ & _ & Hdiff & _).
  apply (Hdiff helpers_misc.doubleQuote "g"%char "'ar").
  - reflexivity.
  - discriminate.
Defined.

(** ** DOM errors *)

Lemma lastIndexFrom_lastPos (s : string) (c : ascii) : forall i acc,
  strings_.lastIndexFrom i acc s c
  = match lastPos s c with
    | Some n => (i + Z.of_nat n)%Z
    | None => acc
    end.
Proof.
  induction s as [|a s IH]; intros i acc; [reflexivity|].
  simpl. rewrite IH.
  destruct (lastPos s c) as [n|]; [lia|].
  destruct (Ascii.eqb a c); simpl; lia.
Qed.

Lemma lastPos_occurs (s : string) (c : ascii) :
  occurs c s = true -> exists n, lastPos s c = Some n.
Proof.
  induction s as [|a s IH]; simpl; intros H; [discriminate|].
  destruct (lastPos s c) as [n|] eqn:E; [now eexists|].
  destruct (Ascii.eqb a c); [now eexists|].
  simpl in H. destruct (IH H) as [n Hn]. discriminate Hn.
Qed.

Lemma lastPos_none (s : string) (c : ascii) :
  lastPos s c = None -> occurs c s = false.
Proof.
  induction s as [|a s IH]; simpl; intros H; [reflexivity|].
  destruct (lastPos s c); [discriminate|].
  destruct (Ascii.eqb a c); [discriminate|]. simpl. now apply IH.
Qed.

Lemma lastPos_split (s : string) (c : ascii) : forall n,
  lastPos s c = Some n ->
  exists pre t, s = pre +:+ String c t /\ occurs c t = false /\ String.length pre = n.
Proof.
  induction s as [|a s IH]; simpl; intros n H; [discriminate|].
  destruct (lastPos s c) as [m|] eqn:E.
  - injection H as <-. destruct (IH m eq_refl) as (pre & t & -> & Ht & Hl).
    exists (String a pre), t. rewrite append_cons. simpl. auto.
  - destruct (Ascii.eqb a c) eqn:Ea; [|discriminate].
    injection H as <-. apply Ascii.eqb_eq in Ea. subst a.
    exists "", s. rewrite append_empty_l. split; [reflexivity|].
    split; [now apply lastPos_none | reflexivity].
Qed.



(** Slicing at the last occurrence of a byte gives the final part of
    the string that starts with this byte and does not contain it
    again. *)
Lemma sliceFrom_LastIndex (s : string) (c : ascii) :
  occurs c s = true ->
  exists pre t,
    s = pre +:+ String c t /\ occurs c t = false /\
    strings_.sliceFrom (strings_.LastIndex s c) s = String c t.
Proof.
  intros Ho. destruct (lastPos_occurs s c Ho) as [n Hn].
  destruct (lastPos_split s c n Hn) as (pre & t & Hs & Ht & Hl).
  exists pre, t. split; [exact Hs|]. split; [exact Ht|].
  unfold strings_.sliceFrom, strings_.LastIndex.
  rewrite lastIndexFrom_lastPos, Hn, Z.add_0_l, Nat2Z.id.
  subst n. rewrite Hs. apply substring_suffix.
Qed.

(** X3. [errorFromDOMError] gives the timeout error for the code
    "error:timeout" and for no other code, so testing the result
    against [ErrTimedOut] recognises exactly the DOM timeouts. *)
Theorem errorFromDOMError_timeout (domErr : string) :
  helpers_misc.errorFromDOMError domErr = ErrTimedOut <-> domErr = "error:timeout".
Proof.
  split.
  - unfold helpers_misc.errorFromDOMError.
    repeat match goal with
           | |- context [String.eqb domErr ?code] =>
               destruct (String.eqb_spec domErr code) as [->|_];
               [solve [reflexivity | discriminate]|]
           end.
    destruct (strings_.HasPrefix domErr "error:expectednode:"); discriminate.
  - intros ->. reflexivity.
Qed.

(** X4. For a code "error:expectednode:..." the error reports, after
    "expected node but got", the part of the code from its last colon
    on: the reported text starts with a colon, holds no other colon,
    and is the end of the code. *)
Theorem errorFromDOMError_expectednode (rest : string) :
  exists pre t,
    "error:expectednode:" +:+ rest = pre +:+ String ":" t /\
    occurs ":" t = false /\
    helpers_misc.errorFromDOMError ("error:expectednode:" +:+ rest)
    = Errorf "expected node but got %s" [String ":" t].
Proof.
  destruct (sliceFrom_LastIndex ("error:expectednode:" +:+ rest) ":")
    as (pre & t & Hs & Ht & Hslice).
  { reflexivity. }
  exists pre, t. split; [exact Hs|]. split; [exact Ht|].
  assert (Hp : strings_.HasPrefix ("error:expectednode:" +:+ rest) "error:expectednode:"
               = true).
  { apply String.prefix_correct. apply (substring_prefix "error:expectednode:" rest). }
  unfold helpers_misc.errorFromDOMError.
  repeat match goal with
         | |- context [String.eqb ("error:expectednode:" +:+ rest) ?code] =>
             change (String.eqb ("error:expectednode:" +:+ rest) code) with false
         end.
  cbv iota. now rewrite Hp, Hslice.
Qed.

(** The reported text keeps the colon. *)
Example errorFromDOMError_expectednode_sample :
  helpers_misc.errorFromDOMError "error:expectednode:#text"
  = Errorf "expected node but got %s" [":#text"].
Proof. reflexivity. Qed.

(** ** Membership in a slice of strings *)

Lemma stringSliceContains_iff (s : list string) (e : string) :
  waiting.stringSliceContains s e = true <-> In e s.
Proof.
  induction s as [|a s IH]; simpl.
  - split; [discriminate | tauto].
  - destruct (String.eqb_spec a e) as [->|Hne].
    + split; auto.
    + rewrite IH. split; [auto | intros [H|H]; [congruence | assumption]].
Qed.

(** X5. [stringSliceContains] decides membership in the slice: it
    answers true exactly for the strings that occur in it, and false
    on the empty slice. *)
Theorem stringSliceContains_In (s : list string) (e : string) :
  (waiting.stringSliceContains s e = true <-> In e s) /\
  (waiting.stringSliceContains s e = false <-> ~ In e s) /\
  waiting.stringSliceContains [] e = false.
Proof.
  pose proof (stringSliceContains_iff s e) as H.
  split; [exact H|]. split; [|reflexivity].
  destruct (waiting.stringSliceContains s e).
  - split; [discriminate|]. intros Hn. exfalso. apply Hn. now apply H.
  - split; [|reflexivity]. intros _ Hin. apply H in Hin. discriminate Hin.
Qed.

(** ** One field per call argument *)

Lemma populated_single (b : string) :
  (populated (cdpruntime.mkCallArgument b "" "") <= 1)%nat /\
  (populated (cdpruntime.mkCallArgument "" b "") <= 1)%nat /\
  (populated (cdpruntime.mkCallArgument "" "" b) <= 1)%nat.
Proof. unfold populated. simpl. destruct (String.eqb b ""); simpl; lia. Qed.

Lemma convertBaseJSHandleTypes_one_field
    (ctx : helpers.ExecutionContextPtr) (h : helpers.BaseJSHandle) :
  match helpers.convertBaseJSHandleTypes ctx h with
  | (Some a, e) => (populated a <= 1)%nat /\ e = None
  | (None, e) => e = Some ErrWrongExecutionContext \/ e = Some ErrJSHandleDisposed
  end.
Proof.
  unfold helpers.convertBaseJSHandleTypes.
  destruct (negb _); [now left|].
  destruct (helpers.disposed h); [now right|].
  destruct (negb _); [split; [apply populated_single | reflexivity]|].
  destruct (String.eqb _ _); (split; [apply populated_single | reflexivity]).
Qed.

(** X6. Whatever the argument, [convertArgument] sets at most one of
    the three fields of the call argument it returns; it returns no
    call argument only for a handle, with the wrong-context or the
    disposed error; and a JSON encoding failure comes together with a
    call argument, not instead of one. *)
Theorem convertArgument_one_field (Exported : Type)
    (json_Marshal_int64 : Z -> string * option error)
    (json_Marshal_float64 : spec_float -> string * option error)
    (json_Marshal : Exported -> string * option error)
    (ctx : helpers.ExecutionContextPtr) (arg : helpers.Value Exported) :
  match helpers.convertArgument Exported json_Marshal_int64 json_Marshal_float64
          json_Marshal ctx arg with
  | (Some a, _) => (populated a <= 1)%nat
  | (None, e) =>
      (e = Some ErrWrongExecutionContext \/ e = Some ErrJSHandleDisposed) /\
      exists h, arg = helpers.valueElementHandle Exported (helpers.mkElementHandle h) \/
                arg = helpers.valueBaseJSHandle Exported h
  end /\
  (forall x, arg = helpers.valueOther Exported x ->
     exists a, helpers.convertArgument Exported json_Marshal_int64 json_Marshal_float64
                 json_Marshal ctx arg = (Some a, snd (json_Marshal x))).
Proof.
  split.
  - destruct arg as [i|f|[h]|h|x]; simpl.
    + destruct (math.MaxInt32 <? i)%Z; [apply populated_single|].
      destruct (json_Marshal_int64 i). apply populated_single.
    + repeat (match goal with |- context [if ?b then _ else _] => destruct b end;
              [apply populated_single|]).
      destruct (json_Marshal_float64 f). apply populated_single.
    + pose proof (convertBaseJSHandleTypes_one_field ctx h) as H.
      destruct (helpers.convertBaseJSHandleTypes ctx h) as [[a|] e].
      * apply H.
      * split; [exact H|]. exists h. now left.
    + pose proof (convertBaseJSHandleTypes_one_field ctx h) as H.
      destruct (helpers.convertBaseJSHandleTypes ctx h) as [[a|] e].
      * apply H.
      * split; [exact H|]. exists h. now right.
    + destruct (json_Marshal x). apply populated_single.
  - intros x ->. simpl. destruct (json_Marshal x) as [b e]. now eexists.
Qed.

Lemma convertArgument_one_field_witness :
  exists a,
    helpers.convertArgument unit marshalInt marshalFloat
      (fun _ => ("", Some (errorString "json: unsupported value"))) 1%positive
      (helpers.valueOther unit tt)
    = (Some a, Some (errorString "json: unsupported value")).
Proof.
  pose proof (convertArgument_one_field unit marshalInt marshalFloat
                (fun _ => ("", Some (errorString "json: unsupported value"))) 1%positive
                (helpers.valueOther unit tt)) as (_ & H).
  apply (H tt). reflexivity.
Defined.

(** ** What a wait can return *)

(** X7. Whatever happens during the wait, [waitForEvent] returns
    no error other than [ErrTimedOut], never a value together with an
    error, and a value other than nil only as the payload of an
    observed event whose type is in the set and which a given
    predicate accepts; without a predicate it never returns a
    payload. *)
Theorem waitForEvent_sound (T : Type) (events : list string)
    (predicateFn : option (waiting.any T -> bool))
    (occ : list (waiting.occurrence T)) (v : waiting.any T) (e : option error) :
  waiting.waitForEvent events predicateFn occ = Some (v, e) ->
  (e = None \/ (e = Some ErrTimedOut /\ v = None)) /\
  (forall x, v = Some x ->
     exists p ev, predicateFn = Some p /\ In (waiting.emitted ev) occ /\
                  In (waiting.typ ev) events /\ p (waiting.data ev) = true /\
                  waiting.data ev = Some x).
Proof.
  induction occ as [|o occ IH]; simpl; [discriminate|].
  destruct o as [ev| |].
  - unfold waiting.handleEvent.
    destruct (waiting.stringSliceContains events (waiting.typ ev)) eqn:Hin.
    + destruct predicateFn as [p|].
      * destruct (p (waiting.data ev)) eqn:Hp; intros H; injection H as <- <-.
        -- split; [now left|]. intros x Hx. exists p, ev.
           apply stringSliceContains_iff in Hin. auto 6.
        -- split; [now left | discriminate].
      * intros H; injection H as <- <-. split; [now left | discriminate].
    + intros H. destruct (IH H) as (He & Hv). split; [exact He|].
      intros x Hx. destruct (Hv x Hx) as (p & ev' & ? & ? & ?).
      exists p, ev'. auto.
  - intros H; injection H as <- <-. split; [now left | discriminate].
  - intros H; injection H as <- <-. split; [now right | discriminate].
Qed.

Lemma waitForEvent_sound_witness :
  exists p ev,
    Some isTwo = Some p /\
    In (waiting.emitted ev)
       [waiting.emitted (waiting.mkEvent "console" (Some 2%nat));
        waiting.emitted (waiting.mkEvent "load" (Some 2%nat))] /\
    In (waiting.typ ev) ["load"] /\ p (waiting.data ev) = true /\
    waiting.data ev = Some 2%nat.
Proof.
  apply (waitForEvent_sound nat ["load"] (Some isTwo)
           [waiting.emitted (waiting.mkEvent "console" (Some 2%nat));
            waiting.emitted (waiting.mkEvent "load" (Some 2%nat))]
           (Some 2%nat) None); reflexivity.
Defined.

(** ** What a call with a timeout can return *)

(** X8. [callApiWithTimeout] never returns a result together with an
    error; the error it returns is [ErrTimedOut] or one that the inner
    function sent; and with [timeout <= 0] it sets no timer: as long
    as nothing but timer expiries happens, the call stays blocked. *)
Theorem callApiWithTimeout_sound (T : Type) (timeout : Z)
    (occ : list (waiting.apiOccurrence T)) :
  (forall v e, waiting.callApiWithTimeout timeout occ = Some (v, Some e) ->
     v = None /\ (e = ErrTimedOut \/ In (waiting.errSent e) occ)) /\
  ((timeout <= 0)%Z -> Forall (fun o => o = waiting.timeoutExpired) occ ->
     waiting.callApiWithTimeout timeout occ = None).
Proof.
  split.
  - induction occ as [|o occ IH]; simpl; intros v e; [discriminate|].
    destruct o as [err| |r|err].
    + unfold waiting.apiCtxDone. destruct (waiting.isCanceled err); [|discriminate].
      intros H; injection H as <- <-. auto.
    + destruct (0 <? timeout)%Z.
      * unfold waiting.apiCtxDone. simpl. discriminate.
      * intros H. destruct (IH v e H) as (Hv & He). split; [exact Hv|].
        destruct He; auto.
    + discriminate.
    + intros H; injection H as <- <-. auto.
  - intros Ht Hall. apply Z.ltb_ge in Ht.
    induction Hall as [|o occ -> _ IH]; [reflexivity|].
    simpl. now rewrite Ht.
Qed.

Lemma callApiWithTimeout_sound_witness :
  waiting.callApiWithTimeout (T := nat) 0
    [waiting.timeoutExpired; waiting.timeoutExpired] = None.
Proof.
  pose proof (callApiWithTimeout_sound nat 0 [waiting.timeoutExpired; waiting.timeoutExpired])
    as (_ & H).
  apply H; [lia | repeat constructor].
Defined.

(** ** Splitting, the other way round *)

(** Runes other than the plus sign go to the accumulator. *)
Lemma split_loop_plain (rs : list utf8.rune) : forall kk s rest,
  Forall (fun r => r <> "+") rs ->
  split_loop kk s (rs ++ rest) = split_loop kk (s +:+ joinRunes rs) rest.
Proof.
  induction rs as [|r rs IH]; intros kk s rest Hrs.
  - cbn [app joinRunes fold_right]. now rewrite append_empty_r.
  - apply Forall_cons_iff in Hrs as [Hr Hrs].
    cbn [app]. rewrite split_loop_step.
    apply String.eqb_neq in Hr. rewrite Hr. cbn [andb].
    rewrite IH by assumption.
    change (joinRunes (r :: rs)) with (r +:+ joinRunes rs).
    now rewrite append_assoc.
Qed.

(** Runes whose bytes hold no plus sign are not the plus sign. *)
Lemma joinRunes_no_plus (rs : list utf8.rune) :
  occurs "+" (joinRunes rs) = false -> Forall (fun r => r <> "+") rs.
Proof.
  induction rs as [|r rs IH]; intros H; [constructor|].
  change (joinRunes (r :: rs)) with (r +:+ joinRunes rs) in H.
  rewrite occurs_append in H. apply orb_false_iff in H as [Hr Hrs].
  constructor; [|now apply IH].
  intros ->. discriminate Hr.
Qed.

Lemma plusOnlyAtHead_tail (r u : string) :
  r <> "" -> plusOnlyAtHead (r +:+ u) = true -> occurs "+" u = false.
Proof.
  destruct r as [|c t]; [congruence|]. intros _.
  rewrite append_cons. cbn [plusOnlyAtHead]. rewrite occurs_append.
  intros H. apply negb_true_iff in H. now apply orb_false_iff in H as [_ H].
Qed.

(** The runes of a whole segment go to the empty accumulator. *)
Lemma split_loop_runes_segment (rs : list utf8.rune) (kk : list string)
    (rest : list utf8.rune) :
  Forall properRune rs ->
  plusOnlyAtHead (joinRunes rs) = true ->
  split_loop kk "" (rs ++ rest) = split_loop kk (joinRunes rs) rest.
Proof.
  destruct rs as [|r rs]; intros Hp Hseg; [reflexivity|].
  apply Forall_cons_iff in Hp as [[Hne _] _].
  change (joinRunes (r :: rs)) with (r +:+ joinRunes rs) in *.
  cbn [app]. rewrite split_loop_step.
  cbn [String.length Nat.ltb Nat.leb]. rewrite andb_false_r, append_empty_l.
  apply split_loop_plain. apply joinRunes_no_plus.
  now apply (plusOnlyAtHead_tail r).
Qed.

Lemma split_loop_segment (seg : string) (kk : list string) (rest : list utf8.rune) :
  utf8.ValidString seg = true ->
  plusOnlyAtHead seg = true ->
  split_loop kk "" (utf8.rangeRunes seg ++ rest) = split_loop kk seg rest.
Proof.
  intros Hv Hseg.
  rewrite <- (joinRunes_rangeRunes seg Hv) at 2.
  apply split_loop_runes_segment; [apply rangeRunes_proper|].
  now rewrite joinRunes_rangeRunes.
Qed.

Lemma split_loop_join (init : list string) (last : string) : forall kk,
  Forall (fun seg => seg <> "" /\ plusOnlyAtHead seg = true
                     /\ utf8.ValidString seg = true) init ->
  plusOnlyAtHead last = true ->
  utf8.ValidString last = true ->
  split_loop kk "" (utf8.rangeRunes (String.concat "+" (init ++ [last])))
  = kk ++ init ++ [last].
Proof.
  induction init as [|a init IH]; intros kk Hinit Hlast Hvlast.
  - cbn [app String.concat].
    rewrite <- (app_nil_r (utf8.rangeRunes last)).
    now rewrite split_loop_segment.
  - apply Forall_cons_iff in Hinit as [(Ha & Hpa & Hva) Hrest].
    replace (String.concat "+" ((a :: init) ++ [last]))
      with (a +:+ String "+" (String.concat "+" (init ++ [last])))
      by (simpl; now destruct (init ++ [last]) eqn:E; [destruct init; discriminate E|]).
    rewrite (rangeRunes_app a _ Hva), rangeRunes_plus.
    rewrite split_loop_segment by assumption.
    rewrite split_loop_step.
    replace (0 <? String.length a)%nat with true
      by (destruct a; [congruence | reflexivity]).
    cbn [String.eqb Ascii.eqb Bool.eqb andb].
    rewrite IH by assumption. now rewrite <- app_assoc.
Qed.

(** X9. Joining segments with plus signs and splitting the result
    gives the segments back, provided that every segment is valid
    UTF-8, that every segment but the last is non-empty and that a
    segment holds a plus sign at most as its first byte. *)
Theorem split_join (init : list string) (last : string) :
  Forall (fun seg => seg <> "" /\ plusOnlyAtHead seg = true
                     /\ utf8.ValidString seg = true) init ->
  plusOnlyAtHead last = true ->
  utf8.ValidString last = true ->
  split (String.concat "+" (init ++ [last])) = init ++ [last].
Proof. intros Hinit Hlast Hv. unfold split. now rewrite split_loop_join. Qed.

Lemma split_join_witness :
  split (String.concat "+" (["Control"; "+"] ++ ["a"])) = ["Control"; "+"] ++ ["a"].
Proof.
  apply (split_join ["Control"; "+"] "a").
  - constructor; [|constructor; [|constructor]].
    + refine (conj _ (conj _ _)); [discriminate | reflexivity | reflexivity].
    + refine (conj _ (conj _ _)); [discriminate | reflexivity | reflexivity].
  - reflexivity.
  - reflexivity.
Defined.

Lemma split_loop_heads (runes : list utf8.rune) : forall kk s,
  Forall properRune runes ->
  Forall (fun seg => plusOnlyAtHead seg = true) kk ->
  plusOnlyAtHead s = true ->
  Forall (fun seg => plusOnlyAtHead seg = true) (split_loop kk s runes).
Proof.
  induction runes as [|r runes IH]; intros kk s Hp Hkk Hs.
  - simpl. apply Forall_app. split; [assumption | now constructor].
  - apply Forall_cons_iff in Hp as [[Hne Hr] Hp].
    rewrite split_loop_step.
    destruct (String.eqb r "+" && (0 <? String.length s)%nat) eqn:E.
    + apply IH; [assumption | | reflexivity].
      apply Forall_app. split; [assumption | now constructor].
    + apply IH; [assumption | assumption |].
      destruct s as [|a t].
      * rewrite append_empty_l. destruct Hr as [-> | Hr]; [reflexivity|].
        destruct r as [|c u]; [reflexivity|].
        cbn [occurs] in Hr. apply orb_false_iff in Hr as [_ Hr].
        cbn [plusOnlyAtHead]. now rewrite Hr.
      * cbn [String.length Nat.ltb Nat.leb] in E. rewrite andb_true_r in E.
        destruct Hr as [-> | Hr]; [discriminate E|].
        rewrite append_cons. cbn [plusOnlyAtHead] in *.
        rewrite occurs_append, Hr.
        apply negb_true_iff in Hs. now rewrite Hs.
Qed.

(** X10. In every segment that [split] returns a plus sign can only
    be the first byte: a plus sign is kept as a key only where a key
    starts. *)
Theorem split_plus_only_at_head (keys : string) :
  Forall (fun seg => plusOnlyAtHead seg = true) (split keys).
Proof.
  apply split_loop_heads; [apply rangeRunes_proper | constructor | reflexivity].
Qed.

(** ** The effect of one key down and one key up (later revision) *)

Section KeyEffects.

Variable Do : input.DispatchKeyEventParams -> option error.
Implicit Types (k : Keyboard.Keyboard) (key : string).

Lemma down_effect k key :
  key ∈ keyboardlayout.ValidKeys (Keyboard.layout k) ->
  Keyboard.down Do key k
  = (afterDown k key,
     match Do (downCommand k key) with
     | Some err => Some (Wrapf "cannot execute dispatch key event down: %w" err)
     | None => None
     end).
Proof.
  intros Hv. unfold Keyboard.down.
  rewrite (bool_decide_eq_true_2 _ Hv). simpl.
  change (input.WithAutoRepeat _ _) with (downCommand k key).
  now destruct (Do (downCommand k key)).
Qed.

Lemma up_effect k key :
  key ∈ keyboardlayout.ValidKeys (Keyboard.layout k) ->
  Keyboard.up Do key k
  = (afterUp k key,
     match Do (upCommand k key) with
     | Some err => Some (Wrapf "cannot execute dispatch key event up: %w" err)
     | None => None
     end).
Proof.
  intros Hv. unfold Keyboard.up.
  rewrite (bool_decide_eq_true_2 _ Hv). simpl.
  change (input.WithLocation _ _) with (upCommand k key).
  now destruct (Do (upCommand k key)).
Qed.

Lemma down_invalid k key :
  key ∉ keyboardlayout.ValidKeys (Keyboard.layout k) ->
  Keyboard.down Do key k
  = (k, Some (Errorf "%q is not a valid key for layout %q" [key; Keyboard.layoutName k])).
Proof.
  intros Hv. unfold Keyboard.down. now rewrite (bool_decide_eq_false_2 _ Hv).
Qed.

Lemma up_invalid k key :
  key ∉ keyboardlayout.ValidKeys (Keyboard.layout k) ->
  Keyboard.up Do key k
  = (k, Some (Errorf "'%s' is not a valid key for layout '%s'" [key; Keyboard.layoutName k])).
Proof.
  intros Hv. unfold Keyboard.up. now rewrite (bool_decide_eq_false_2 _ Hv).
Qed.

End KeyEffects.

(** ** Invalid keys *)

(** X11. A key that is not valid in the layout is rejected before
    anything else happens: [down], [up] and [press] return the error,
    send no command and leave the modifier state and the pressed keys
    as they were. *)
Theorem invalid_key_rejected (Do : input.DispatchKeyEventParams -> option error)
    (k : Keyboard.Keyboard) (key : string) (opts : Keyboard.KeyboardOptions) :
  key ∉ keyboardlayout.ValidKeys (Keyboard.layout k) ->
  Keyboard.down Do key k
  = (k, Some (Errorf "%q is not a valid key for layout %q" [key; Keyboard.layoutName k])) /\
  Keyboard.up Do key k
  = (k, Some (Errorf "'%s' is not a valid key for layout '%s'" [key; Keyboard.layoutName k])) /\
  KeyboardOps.press Do key opts k
  = (k, Some (Wrapf "cannot do key down: %w"
                (Errorf "%q is not a valid key for layout %q" [key; Keyboard.layoutName k]))).
Proof.
  intros Hv. split; [now apply down_invalid|]. split; [now apply up_invalid|].
  unfold KeyboardOps.press. now rewrite down_invalid.
Qed.

Lemma invalid_key_rejected_witness :
  KeyboardOps.press sample.accept "F13" (Keyboard.mkKeyboardOptions 0) fresh
  = (fresh, Some (Wrapf "cannot do key down: %w"
                    (Errorf "%q is not a valid key for layout %q" ["F13"; "us"]))).
Proof.
  apply (invalid_key_rejected sample.accept fresh "F13" (Keyboard.mkKeyboardOptions 0)).
  intros H. apply (bool_decide_pack _) in H. vm_compute in H. exact H.
Defined.

(** ** The modifier state is a mask of four bits *)

Lemma lor_bit_in_range (m : Z) (name : string) :
  modifiersInRange m -> modifiersInRange (Z.lor m (modifierBitFromKeyName name)).
Proof.
  unfold modifiersInRange. intros Hm.
  assert (E : (m = 0 \/ m = 1 \/ m = 2 \/ m = 3 \/ m = 4 \/ m = 5 \/ m = 6 \/ m = 7 \/
               m = 8 \/ m = 9 \/ m = 10 \/ m = 11 \/ m = 12 \/ m = 13 \/ m = 14 \/ m = 15)%Z)
    by lia.
  destruct (modifierBitFromKeyName_cases name)
    as [[_ ->]|[[_ ->]|[[_ ->]|[[_ ->]|(_ & _ & _ & _ & ->)]]]];
    repeat (destruct E as [-> | E]); subst; vm_compute; split; congruence.
Qed.

Lemma land_bit_in_range (m : Z) (name : string) :
  modifiersInRange m ->
  modifiersInRange (Z.land m (Z.lnot (modifierBitFromKeyName name))).
Proof.
  unfold modifiersInRange. intros Hm.
  assert (E : (m = 0 \/ m = 1 \/ m = 2 \/ m = 3 \/ m = 4 \/ m = 5 \/ m = 6 \/ m = 7 \/
               m = 8 \/ m = 9 \/ m = 10 \/ m = 11 \/ m = 12 \/ m = 13 \/ m = 14 \/ m = 15)%Z)
    by lia.
  destruct (modifierBitFromKeyName_cases name)
    as [[_ ->]|[[_ ->]|[[_ ->]|[[_ ->]|(_ & _ & _ & _ & ->)]]]];
    repeat (destruct E as [-> | E]); subst; vm_compute; split; congruence.
Qed.

Section ModifierRange.

Variable Do : input.DispatchKeyEventParams -> option error.
Implicit Types (k : Keyboard.Keyboard) (key : string).

Lemma down_in_range k key :
  modifiersInRange (Keyboard.modifiers k) ->
  modifiersInRange (Keyboard.modifiers (fst (Keyboard.down Do key k))).
Proof.
  intros Hm. destruct (decide (key ∈ keyboardlayout.ValidKeys (Keyboard.layout k))) as [Hv|Hv].
  - rewrite down_effect by assumption. simpl. now apply lor_bit_in_range.
  - now rewrite down_invalid.
Qed.

Lemma up_in_range k key :
  modifiersInRange (Keyboard.modifiers k) ->
  modifiersInRange (Keyboard.modifiers (fst (Keyboard.up Do key k))).
Proof.
  intros Hm. destruct (decide (key ∈ keyboardlayout.ValidKeys (Keyboard.layout k))) as [Hv|Hv].
  - rewrite up_effect by assumption. simpl. now apply land_bit_in_range.
  - now rewrite up_invalid.
Qed.

Lemma press_in_range k key opts :
  modifiersInRange (Keyboard.modifiers k) ->
  modifiersInRange (Keyboard.modifiers (fst (KeyboardOps.press Do key opts k))).
Proof.
  intros Hm. unfold KeyboardOps.press.
  pose proof (down_in_range k key Hm) as Hd.
  destruct (Keyboard.down Do key k) as [k1 [e|]]; simpl in *; [assumption|].
  now apply up_in_range.
Qed.

Lemma comboPress_downs_in_range kk : forall k,
  modifiersInRange (Keyboard.modifiers k) ->
  modifiersInRange (Keyboard.modifiers (fst (Keyboard.comboPress_downs Do kk k))).
Proof.
  induction kk as [|key kk IH]; intros k Hm; [assumption|].
  simpl. pose proof (down_in_range k key Hm) as Hd.
  destruct (Keyboard.down Do key k) as [k1 [e|]]; simpl in *; [assumption|].
  now apply IH.
Qed.

Lemma comboPress_ups_in_range kk ixs : forall k,
  modifiersInRange (Keyboard.modifiers k) ->
  modifiersInRange (Keyboard.modifiers (fst (Keyboard.comboPress_ups Do kk ixs k))).
Proof.
  induction ixs as [|i ixs IH]; intros k Hm; [assumption|].
  simpl. pose proof (up_in_range k (nth (length kk - i - 1) kk "") Hm) as Hu.
  destruct (Keyboard.up Do _ k) as [k1 [e|]]; simpl in *; [assumption|].
  now apply IH.
Qed.

Lemma comboPress_in_range k keys opts sel :
  modifiersInRange (Keyboard.modifiers k) ->
  modifiersInRange (Keyboard.modifiers (fst (Keyboard.comboPress Do keys opts sel k))).
Proof.
  intros Hm. unfold Keyboard.comboPress.
  destruct (negb _ && _); [assumption|].
  pose proof (comboPress_downs_in_range (split keys) k Hm) as Hd.
  destruct (Keyboard.comboPress_downs Do (split keys) k) as [k1 [e|]]; simpl in *;
    [assumption|].
  now apply comboPress_ups_in_range.
Qed.

(** X12. The modifier state stays a mask over the four modifier
    bits: whatever calls of [down], [up], [press] and [comboPress] are
    made, with valid or invalid keys and with or without dispatch
    failures, a state within 0..15 stays within 0..15; in particular
    this holds on a new keyboard. *)
Theorem modifiers_stay_in_range (cs : list KeyboardOps.call) k :
  modifiersInRange (Keyboard.modifiers k) ->
  modifiersInRange (Keyboard.modifiers (KeyboardOps.performAll Do cs k)).
Proof.
  revert k. induction cs as [|c cs IH]; intros k Hm; [assumption|].
  simpl. apply IH. destruct c as [key|key|key opts|keys opts sel]; simpl.
  - now apply down_in_range.
  - now apply up_in_range.
  - now apply press_in_range.
  - now apply comboPress_in_range.
Qed.

End ModifierRange.

Lemma modifiers_stay_in_range_witness :
  modifiersInRange
    (Keyboard.modifiers
       (KeyboardOps.performAll sample.accept
          [KeyboardOps.callDown "ShiftLeft"; KeyboardOps.callDown "ControlLeft";
           KeyboardOps.callPress "KeyA" (Keyboard.mkKeyboardOptions 0);
           KeyboardOps.callUp "F13"]
          (KeyboardOps.NewKeyboard sample.GetKeyboardLayout))).
Proof.
  apply (modifiers_stay_in_range sample.accept).
  unfold modifiersInRange. simpl. lia.
Defined.

(** ** Text suppression and auto-repeat *)

(** The key code does not depend on the modifier state when the entry
    has a key code of its own. *)
Lemma keyDefinitionFromKey_KeyCode (k : Keyboard.Keyboard) (key : keyboardlayout.KeyInput) :
  keyboardlayout.KeyCode (fst (resolution.resolve (Keyboard.layout k) key)) <> 0%Z ->
  keyboardlayout.KeyCode (Keyboard.keyDefinitionFromKey k key)
  = keyboardlayout.KeyCode (fst (resolution.resolve (Keyboard.layout k) key)).
Proof.
  unfold Keyboard.keyDefinitionFromKey, resolution.resolve.
  destruct (keyboardlayout.Keys (Keyboard.layout k) !! key) as [d|]; simpl.
  - intros Hc. apply Z.eqb_neq in Hc. rewrite Hc. simpl. case_conditions; reflexivity.
  - destruct (keyboardlayout.KeyDefinitionOf (Keyboard.layout k) key) as [d ok].
    destruct ok; simpl; intros Hc; apply Z.eqb_neq in Hc; rewrite Hc; simpl;
      case_conditions; reflexivity.
Qed.

(** X13. While Alt, Control or Meta is held, a key down carries no
    text: the command is a raw key down whose text and unmodified text
    are empty, whatever the key and the state of Shift. *)
Theorem down_without_text (Do : input.DispatchKeyEventParams -> option error)
    (k : Keyboard.Keyboard) (key : string) :
  key ∈ keyboardlayout.ValidKeys (Keyboard.layout k) ->
  Z.land (Keyboard.modifiers k) (Z.lnot ModifierKeyShift) <> 0%Z ->
  exists a,
    Keyboard.session (fst (Keyboard.down Do key k)) = Keyboard.session k ++ [a] /\
    input.Type_ a = input.KeyRawDown /\ input.Text a = "" /\ input.UnmodifiedText a = "".
Proof.
  intros Hv Hm. rewrite down_effect by assumption.
  exists (downCommand k key). split; [reflexivity|].
  unfold downCommand. simpl. rewrite keyDefinitionFromKey_Text.
  unfold resolution.otherModifierHeld.
  apply Z.eqb_neq in Hm. rewrite Hm. simpl. auto.
Qed.

Lemma down_without_text_witness :
  exists a,
    Keyboard.session
      (fst (Keyboard.down sample.accept "KeyA"
              (Keyboard.mkKeyboard [] (Z.lor ModifierKeyControl ModifierKeyShift) ∅ "us"
                 sample.us)))
    = [] ++ [a] /\
    input.Type_ a = input.KeyRawDown /\ input.Text a = "" /\ input.UnmodifiedText a = "".
Proof.
  apply (down_without_text sample.accept
           (Keyboard.mkKeyboard [] (Z.lor ModifierKeyControl ModifierKeyShift) ∅ "us"
              sample.us) "KeyA").
  - apply (bool_decide_unpack _). vm_compute. exact I.
  - vm_compute. discriminate.
Defined.



(** ** Press *)

Section Press.

Variable Do : input.DispatchKeyEventParams -> option error.
Implicit Types (k : Keyboard.Keyboard) (key : string).


(** X16. When the session rejects the key down, [press] returns
    that error and does not send the key up: the key stays marked as
    held and a modifier bit that the key down has set stays set. *)
Theorem press_failed_down_leaves_key_held k key (opts : Keyboard.KeyboardOptions)
    (err : error) :
  key ∈ keyboardlayout.ValidKeys (Keyboard.layout k) ->
  Do (downCommand k key) = Some err ->
  let keyDef := Keyboard.keyDefinitionFromKey k key in
  let k' := fst (KeyboardOps.press Do key opts k) in
  snd (KeyboardOps.press Do key opts k)
    = Some (Wrapf "cannot do key down: %w"
              (Wrapf "cannot execute dispatch key event down: %w" err)) /\
  Keyboard.session k' = Keyboard.session k ++ [downCommand k key] /\
  Keyboard.pressedKeys k' !! keyboardlayout.KeyCode keyDef = Some true /\
  Keyboard.modifiers k'
    = Z.lor (Keyboard.modifiers k) (modifierBitFromKeyName (keyboardlayout.Key keyDef)).
Proof.
  intros Hv Hdo. cbv zeta. unfold KeyboardOps.press.
  rewrite (down_effect Do k key Hv), Hdo. cbn [fst snd].
  split; [reflexivity|]. split; [reflexivity|]. split; [|reflexivity].
  unfold afterDown. cbn [Keyboard.pressedKeys]. apply lookup_insert_eq.
Qed.

End Press.


(** A session that rejects every command. *)
Lemma press_failed_down_leaves_key_held_witness :
  let reject := fun _ : input.DispatchKeyEventParams => Some (errorString "closed") in
  let k' := fst (KeyboardOps.press reject "ShiftLeft" (Keyboard.mkKeyboardOptions 0) fresh) in
  snd (KeyboardOps.press reject "ShiftLeft" (Keyboard.mkKeyboardOptions 0) fresh)
    = Some (Wrapf "cannot do key down: %w"
              (Wrapf "cannot execute dispatch key event down: %w" (errorString "closed"))) /\
  Keyboard.session k' = Keyboard.session fresh ++ [downCommand fresh "ShiftLeft"] /\
  Keyboard.pressedKeys k'
    !! keyboardlayout.KeyCode (Keyboard.keyDefinitionFromKey fresh "ShiftLeft") = Some true /\
  Keyboard.modifiers k'
    = Z.lor (Keyboard.modifiers fresh)
        (modifierBitFromKeyName
           (keyboardlayout.Key (Keyboard.keyDefinitionFromKey fresh "ShiftLeft"))).
Proof.
  intros reject.
  apply (press_failed_down_leaves_key_held reject fresh "ShiftLeft"
           (Keyboard.mkKeyboardOptions 0) (errorString "closed")).
  - apply (bool_decide_unpack _). vm_compute. exact I.
  - reflexivity.
Defined.

(** ** Combo presses: failure and release *)

Lemma bitOf_stable (k0 : Keyboard.Keyboard) (key : string) :
  stableName (Keyboard.layout k0) key ->
  modifierBitFromKeyName (keyboardlayout.Key (Keyboard.keyDefinitionFromKey k0 key))
  = bitOf (Keyboard.layout k0) key.
Proof.
  unfold stableName, bitOf. intros Hs.
  rewrite keyDefinitionFromKey_Key.
  destruct (resolution.shiftRule k0 key) eqn:R; [|reflexivity].
  destruct Hs as [Hs | Hs]; [|exact Hs].
  unfold resolution.shiftRule in R.
  destruct (resolution.resolve (Keyboard.layout k0) key) as [d f].
  simpl in Hs. rewrite Hs in R. simpl in R. now rewrite andb_false_r in R.
Qed.

Lemma bitsOf_app (l : keyboardlayout.KeyboardLayout) (l1 l2 : list string) :
  bitsOf l (l1 ++ l2) = Z.lor (bitsOf l l1) (bitsOf l l2).
Proof.
  induction l1 as [|a l1 IH]; simpl; [reflexivity|].
  fold (bitsOf l (l1 ++ l2)). fold (bitsOf l l1). now rewrite IH, Z.lor_assoc.
Qed.

Lemma bitsOf_rev (l : keyboardlayout.KeyboardLayout) (kk : list string) :
  bitsOf l (rev kk) = bitsOf l kk.
Proof.
  induction kk as [|a kk IH]; [reflexivity|].
  simpl. rewrite bitsOf_app, IH. simpl. fold (bitsOf l kk).
  now rewrite Z.lor_0_r, Z.lor_comm.
Qed.

Section ComboPressState.

Variable Do : input.DispatchKeyEventParams -> option error.
Hypothesis Do_succeeds : forall a, Do a = None.
Implicit Types (k : Keyboard.Keyboard) (kk : list string).

(** The first loop over valid keys: the commands, and what it keeps. *)
Lemma comboPress_downs_valid kk : forall k,
  Forall (fun key => key ∈ keyboardlayout.ValidKeys (Keyboard.layout k)) kk ->
  exists k' downs,
    Keyboard.comboPress_downs Do kk k = (k', None) /\
    Keyboard.layout k' = Keyboard.layout k /\
    Keyboard.layoutName k' = Keyboard.layoutName k /\
    Keyboard.session k' = Keyboard.session k ++ downs /\
    Forall isDown downs /\ map input.Code downs = kk /\
    (Forall (stableName (Keyboard.layout k)) kk ->
     Keyboard.modifiers k' = Z.lor (Keyboard.modifiers k) (bitsOf (Keyboard.layout k) kk)).
Proof.
  induction kk as [|key kk IH]; intros k Hv.
  - exists k, []. simpl. rewrite app_nil_r, Z.lor_0_r. repeat split; constructor.
  - apply Forall_cons_iff in Hv as [Hkey Hrest].
    cbn [Keyboard.comboPress_downs].
    rewrite (down_effect Do k key Hkey), Do_succeeds.
    destruct (IH (afterDown k key) Hrest) as (k' & downs & Hr & Hl & Hn & Hs & Hd & Hm & Hmod).
    exists k', (downCommand k key :: downs). rewrite Hr.
    split; [reflexivity|]. split; [exact Hl|]. split; [exact Hn|].
    split; [rewrite Hs; unfold afterDown; cbn [Keyboard.session];
            now rewrite <- app_assoc|].
    split.
    { constructor; [|exact Hd].
      unfold isDown, downCommand. cbn [input.Type_].
      destruct (String.eqb _ _); discriminate. }
    split.
    { cbn [map]. f_equal; [apply keyDefinitionFromKey_Code | exact Hm]. }
    intros Hst. apply Forall_cons_iff in Hst as [Hk Hst'].
    rewrite (Hmod Hst'). unfold afterDown. cbn [Keyboard.modifiers Keyboard.layout].
    rewrite (bitOf_stable k key Hk). cbn [bitsOf fold_right].
    fold (bitsOf (Keyboard.layout k) kk). now rewrite Z.lor_assoc.
Qed.

(** The second loop over valid keys: what it does to the modifiers. *)
Lemma comboPress_ups_modifiers kk ixs : forall k,
  let keys := map (fun i => nth (length kk - i - 1) kk "") ixs in
  Forall (fun key => key ∈ keyboardlayout.ValidKeys (Keyboard.layout k)) keys ->
  Forall (stableName (Keyboard.layout k)) keys ->
  Keyboard.modifiers (fst (Keyboard.comboPress_ups Do kk ixs k))
  = Z.land (Keyboard.modifiers k) (Z.lnot (bitsOf (Keyboard.layout k) keys)).
Proof.
  induction ixs as [|i ixs IH]; intros k keys Hv Hst.
  - simpl. change (Z.lnot 0) with (-1)%Z. now rewrite Z.land_m1_r.
  - subst keys. cbn [map] in *.
    apply Forall_cons_iff in Hv as [Hkey Hrest].
    apply Forall_cons_iff in Hst as [Hk Hst'].
    cbn [Keyboard.comboPress_ups].
    rewrite (up_effect Do k _ Hkey), Do_succeeds.
    rewrite (IH (afterUp k _) Hrest Hst').
    unfold afterUp at 1 2. cbn [Keyboard.modifiers Keyboard.layout].
    rewrite (bitOf_stable k _ Hk). cbn [bitsOf fold_right].
    match goal with |- context [fold_right _ 0%Z ?l] =>
      fold (bitsOf (Keyboard.layout k) l) end.
    now rewrite Z.lnot_lor, Z.land_assoc.
Qed.

(** The first loop stops at the first invalid key. *)
Lemma comboPress_downs_invalid (pre post : list string) (bad : string) : forall k,
  Forall (fun key => key ∈ keyboardlayout.ValidKeys (Keyboard.layout k)) pre ->
  bad ∉ keyboardlayout.ValidKeys (Keyboard.layout k) ->
  exists k' downs,
    Keyboard.comboPress_downs Do (pre ++ bad :: post) k
    = (k', Some (Wrapf "cannot do key down: %w"
                   (Errorf "%q is not a valid key for layout %q"
                      [bad; Keyboard.layoutName k]))) /\
    Keyboard.session k' = Keyboard.session k ++ downs /\
    Forall isDown downs /\ map input.Code downs = pre.
Proof.
  induction pre as [|key pre IH]; intros k Hpre Hbad.
  - exists k, []. cbn [app Keyboard.comboPress_downs].
    rewrite (down_invalid Do k bad Hbad). rewrite app_nil_r.
    repeat split; constructor.
  - apply Forall_cons_iff in Hpre as [Hkey Hrest].
    cbn [app Keyboard.comboPress_downs].
    rewrite (down_effect Do k key Hkey), Do_succeeds.
    destruct (IH (afterDown k key) Hrest Hbad) as (k' & downs & Hr & Hs & Hd & Hm).
    exists k', (downCommand k key :: downs).
    split; [exact Hr|].
    split; [rewrite Hs; unfold afterDown; cbn [Keyboard.session];
            now rewrite <- app_assoc|].
    split.
    { constructor; [|exact Hd].
      unfold isDown, downCommand. cbn [input.Type_].
      destruct (String.eqb _ _); discriminate. }
    cbn [map]. f_equal; [apply keyDefinitionFromKey_Code | exact Hm].
Qed.

(** X17. A combo press is not rolled back: when a segment is not a
    valid key, [comboPress] returns the invalid-key error of that
    segment wrapped as a failed key down; the keys before it have been
    pressed in order, and no key up is sent for them. *)
Theorem comboPress_invalid_segment (keys : string) (opts : Keyboard.KeyboardOptions)
    (sel : Keyboard.delaySelect) k (pre post : list string) (bad : string) :
  split keys = pre ++ bad :: post ->
  Forall (fun key => key ∈ keyboardlayout.ValidKeys (Keyboard.layout k)) pre ->
  bad ∉ keyboardlayout.ValidKeys (Keyboard.layout k) ->
  Keyboard.Delay opts = 0%Z \/ sel = Keyboard.timerC ->
  exists k' downs,
    Keyboard.comboPress Do keys opts sel k
    = (k', Some (Wrapf "cannot do key down: %w"
                   (Errorf "%q is not a valid key for layout %q"
                      [bad; Keyboard.layoutName k]))) /\
    Keyboard.session k' = Keyboard.session k ++ downs /\
    Forall isDown downs /\ map input.Code downs = pre.
Proof.
  intros Hsplit Hpre Hbad Hdelay. unfold Keyboard.comboPress.
  assert (Hgo : negb (Keyboard.Delay opts =? 0)%Z
                && match sel with Keyboard.ctxDone => true | Keyboard.timerC => false end
                = false).
  { destruct Hdelay as [-> | ->]; [reflexivity | apply andb_false_r]. }
  rewrite Hgo, Hsplit.
  destruct (comboPress_downs_invalid pre post bad k Hpre Hbad)
    as (k' & downs & Hr & Hs & Hd & Hm).
  exists k', downs. rewrite Hr. auto.
Qed.

(** X18. After a successful [comboPress] none of the modifiers that
    its keys name is held, also one that was held before the call: the
    modifier state is the one before the call without the bits of the
    keys.  (For keys whose resolved name gives the same modifier bit
    with and without the shift substitution.) *)
Theorem comboPress_releases_modifiers (keys : string) (opts : Keyboard.KeyboardOptions)
    (sel : Keyboard.delaySelect) k :
  Forall (fun key => key ∈ keyboardlayout.ValidKeys (Keyboard.layout k)) (split keys) ->
  Forall (stableName (Keyboard.layout k)) (split keys) ->
  Keyboard.Delay opts = 0%Z \/ sel = Keyboard.timerC ->
  Keyboard.modifiers (fst (Keyboard.comboPress Do keys opts sel k))
  = Z.land (Keyboard.modifiers k) (Z.lnot (bitsOf (Keyboard.layout k) (split keys))).
Proof.
  intros Hv Hst Hdelay. unfold Keyboard.comboPress.
  assert (Hgo : negb (Keyboard.Delay opts =? 0)%Z
                && match sel with Keyboard.ctxDone => true | Keyboard.timerC => false end
                = false).
  { destruct Hdelay as [-> | ->]; [reflexivity | apply andb_false_r]. }
  rewrite Hgo.
  destruct (comboPress_downs_valid (split keys) k Hv)
    as (k1 & downs & Hr & Hl & _ & _ & _ & _ & Hmod).
  rewrite Hr.
  pose proof (comboPress_ups_modifiers (split keys) (seq 0 (length (split keys))) k1) as Hu.
  cbv zeta in Hu. rewrite mirrored_indices, Hl in Hu.
  rewrite Hu by now apply Forall_rev.
  rewrite (Hmod Hst), bitsOf_rev. apply land_lor_lnot.
Qed.

End ComboPressState.

Lemma comboPress_invalid_segment_witness :
  exists k' downs,
    Keyboard.comboPress sample.accept "ShiftLeft+F13+KeyA" (Keyboard.mkKeyboardOptions 0)
      Keyboard.timerC fresh
    = (k', Some (Wrapf "cannot do key down: %w"
                   (Errorf "%q is not a valid key for layout %q"
                      ["F13"; Keyboard.layoutName fresh]))) /\
    Keyboard.session k' = Keyboard.session fresh ++ downs /\
    Forall isDown downs /\ map input.Code downs = ["ShiftLeft"].
Proof.
  apply (comboPress_invalid_segment sample.accept sample_accept_succeeds
           "ShiftLeft+F13+KeyA" (Keyboard.mkKeyboardOptions 0) Keyboard.timerC fresh
           ["ShiftLeft"] ["KeyA"] "F13").
  - reflexivity.
  - constructor; [|constructor]. apply (bool_decide_unpack _). vm_compute. exact I.
  - intros H. apply (bool_decide_pack _) in H. vm_compute in H. exact H.
  - left. reflexivity.
Defined.

Lemma comboPress_releases_modifiers_witness :
  Keyboard.modifiers
    (fst (Keyboard.comboPress sample.accept "ShiftLeft+KeyA" (Keyboard.mkKeyboardOptions 0)
            Keyboard.timerC shifted))
  = Z.land (Keyboard.modifiers shifted)
      (Z.lnot (bitsOf (Keyboard.layout shifted) (split "ShiftLeft+KeyA"))).
Proof.
  apply (comboPress_releases_modifiers sample.accept sample_accept_succeeds
           "ShiftLeft+KeyA" (Keyboard.mkKeyboardOptions 0) Keyboard.timerC shifted).
  - constructor; [|constructor; [|constructor]];
      apply (bool_decide_unpack _); vm_compute; exact I.
  - constructor; [left; reflexivity|].
    constructor; [right; reflexivity | constructor].
  - left. reflexivity.
Defined.

(** ** Typing *)

Lemma shapeOf_down (k : Keyboard.Keyboard) (c : string) :
  shapeOf (KeyboardOps.keyEvent (downCommand k c)) = pressed c.
Proof.
  unfold shapeOf, downCommand. cbn [input.Type_ input.Code].
  rewrite keyDefinitionFromKey_Code. now destruct (String.eqb _ _).
Qed.

Lemma shapeOf_up (k : Keyboard.Keyboard) (c : string) :
  shapeOf (KeyboardOps.keyEvent (upCommand k c)) = released c.
Proof.
  unfold shapeOf, upCommand. cbn [input.Type_ input.Code].
  now rewrite keyDefinitionFromKey_Code.
Qed.

Section Typing.

Variable GetKeyboardLayout : string -> keyboardlayout.KeyboardLayout.
Variable Do : input.DispatchKeyEventParams -> option error.
Variable DoInsertText : string -> option error.
Hypothesis Do_succeeds : forall a, Do a = None.
Hypothesis DoInsertText_succeeds : forall text, DoInsertText text = None.

Lemma typ_loop_shapes (runes : list string) (opts : Keyboard.KeyboardOptions) :
  forall (k : Keyboard.Keyboard) (wire : list KeyboardOps.command),
  GetKeyboardLayout (Keyboard.layoutName k) = Keyboard.layout k ->
  exists k' w,
    KeyboardOps.typ_loop GetKeyboardLayout Do DoInsertText runes opts k wire
    = (k', wire ++ w, None) /\
    map shapeOf w = flat_map (typedShapes (Keyboard.layout k)) runes /\
    (Forall (fun c => c ∉ keyboardlayout.ValidKeys (Keyboard.layout k)) runes -> k' = k).
Proof.
  induction runes as [|c runes IH]; intros k wire Hl.
  - exists k, []. simpl. now rewrite app_nil_r.
  - cbn [KeyboardOps.typ_loop]. rewrite Hl. cbn [flat_map].
    destruct (decide (c ∈ keyboardlayout.ValidKeys (Keyboard.layout k))) as [Hc|Hc].
    + rewrite (bool_decide_eq_true_2 _ Hc).
      unfold typedShapes at 1. rewrite (bool_decide_eq_true_2 _ Hc).
      unfold KeyboardOps.press.
      rewrite (down_effect Do k c Hc), Do_succeeds.
      assert (Hc1 : c ∈ keyboardlayout.ValidKeys (Keyboard.layout (afterDown k c)))
        by exact Hc.
      rewrite (up_effect Do _ c Hc1), Do_succeeds.
      set (k2 := afterUp (afterDown k c) c).
      assert (Hsent : KeyboardOps.sentSince k k2
                      = [KeyboardOps.keyEvent (downCommand k c);
                         KeyboardOps.keyEvent (upCommand (afterDown k c) c)]).
      { unfold KeyboardOps.sentSince, k2, afterUp, afterDown. cbn [Keyboard.session].
        rewrite <- app_assoc, drop_app_length. reflexivity. }
      rewrite Hsent.
      destruct (IH k2 (wire ++ [KeyboardOps.keyEvent (downCommand k c);
                                KeyboardOps.keyEvent (upCommand (afterDown k c) c)]) Hl)
        as (k' & w & Hr & Hw & _).
      exists k', ([KeyboardOps.keyEvent (downCommand k c);
                   KeyboardOps.keyEvent (upCommand (afterDown k c) c)] ++ w).
      split; [rewrite Hr; now rewrite <- app_assoc|].
      split.
      * rewrite map_app, Hw. cbn [map app].
        now rewrite shapeOf_down, shapeOf_up.
      * intros Hall. apply Forall_cons_iff in Hall as [Hno _]. contradiction.
    + rewrite (bool_decide_eq_false_2 _ Hc).
      unfold typedShapes at 1. rewrite (bool_decide_eq_false_2 _ Hc).
      unfold KeyboardOps.insertText. rewrite DoInsertText_succeeds.
      destruct (IH k (wire ++ [KeyboardOps.insertTextCmd c]) Hl) as (k' & w & Hr & Hw & Hk).
      exists k', (KeyboardOps.insertTextCmd c :: w).
      split; [rewrite Hr; now rewrite <- app_assoc|].
      split; [cbn [map shapeOf app]; now rewrite Hw|].
      intros Hall. apply Forall_cons_iff in Hall as [_ Hall]. now apply Hk.
Qed.

(** X19. With a session that accepts every command, [typ] succeeds
    and sends, rune by rune and in the order of the text, a key down
    and a key up for a rune that is a valid key of the layout and one
    insertText command for any other rune; a text without valid keys
    leaves the keyboard state as it was.  (The layout of the keyboard
    is the registered layout of its name, as on a new keyboard.) *)
Theorem typ_sends_per_rune (runes : list string) (opts : Keyboard.KeyboardOptions)
    (k : Keyboard.Keyboard) :
  GetKeyboardLayout (Keyboard.layoutName k) = Keyboard.layout k ->
  exists k' wire,
    KeyboardOps.typ GetKeyboardLayout Do DoInsertText runes opts k = (k', wire, None) /\
    map shapeOf wire
    = flat_map (fun c => if bool_decide (c ∈ keyboardlayout.ValidKeys (Keyboard.layout k))
                         then [pressed c; released c] else [inserted c]) runes /\
    (Forall (fun c => c ∉ keyboardlayout.ValidKeys (Keyboard.layout k)) runes -> k' = k).
Proof.
  intros Hl. unfold KeyboardOps.typ.
  destruct (typ_loop_shapes runes opts k [] Hl) as (k' & w & Hr & Hw & Hk).
  exists k', w. auto.
Qed.

End Typing.

Lemma typ_sends_per_rune_witness :
  exists k' wire,
    KeyboardOps.typ sample.GetKeyboardLayout sample.accept (fun _ => None)
      ["a"; "é"; "2"] (Keyboard.mkKeyboardOptions 0) fresh = (k', wire, None) /\
    map shapeOf wire
    = flat_map (fun c => if bool_decide (c ∈ keyboardlayout.ValidKeys (Keyboard.layout fresh))
                         then [pressed c; released c] else [inserted c]) ["a"; "é"; "2"] /\
    (Forall (fun c => c ∉ keyboardlayout.ValidKeys (Keyboard.layout fresh)) ["a"; "é"; "2"] ->
     k' = fresh).
Proof.
  apply (typ_sends_per_rune sample.GetKeyboardLayout sample.accept (fun _ => None)
           sample_accept_succeeds (fun _ => eq_refl) ["a"; "é"; "2"]
           (Keyboard.mkKeyboardOptions 0) fresh).
  reflexivity.
Defined.

(** ** The earlier revision never holds a modifier *)

Section EarlierRevision.

Variable GetKeyboardLayout : string -> keyboardlayout.KeyboardLayout.
Variable Do : input.DispatchKeyEventParams -> option error.

Lemma down0_unmodified (k : Keyboard0.Keyboard) (key : string) :
  unmodified k -> unmodified (fst (Keyboard0.down GetKeyboardLayout Do key k)).
Proof.
  intros [Hm Hs]. unfold Keyboard0.down.
  destruct (negb (bool_decide _)); [now split|].
  destruct (Do _); cbn [fst]; (split; cbn [Keyboard0.modifiers Keyboard0.session];
    [now rewrite Hm, Z.land_0_l|]);
    (apply Forall_app; split; [exact Hs|]); constructor; [|constructor| |constructor];
    cbn; now rewrite Hm, Z.land_0_l.
Qed.

Lemma up0_unmodified (k : Keyboard0.Keyboard) (key : string) :
  unmodified k -> unmodified (fst (Keyboard0.up GetKeyboardLayout Do key k)).
Proof.
  intros [Hm Hs]. unfold Keyboard0.up.
  destruct (negb (bool_decide _)); [now split|].
  destruct (Do _); cbn [fst]; (split; cbn [Keyboard0.modifiers Keyboard0.session];
    [now rewrite Hm, Z.land_0_l|]);
    (apply Forall_app; split; [exact Hs|]); constructor; [|constructor| |constructor];
    cbn; now rewrite Hm, Z.land_0_l.
Qed.

(** X20. In the earlier revision no sequence of [down], [up] and
    [press] calls on a new keyboard ever holds a modifier: the
    modifier state stays 0 and every key event is sent with the
    modifier mask 0, whatever keys are pressed. *)
Theorem earlier_revision_never_modified (cs : list Keyboard0Ops.call) :
  let k := Keyboard0Ops.performAll GetKeyboardLayout Do cs Keyboard0.NewKeyboard in
  Keyboard0.modifiers k = 0%Z /\
  Forall (fun a => input.Modifiers a = 0%Z) (Keyboard0.session k).
Proof.
  cbv zeta. fold (unmodified (Keyboard0Ops.performAll GetKeyboardLayout Do cs
                                Keyboard0.NewKeyboard)).
  assert (Hnew : unmodified Keyboard0.NewKeyboard) by (split; [reflexivity | constructor]).
  revert Hnew. generalize Keyboard0.NewKeyboard.
  induction cs as [|c cs IH]; intros k Hk; [exact Hk|].
  cbn [Keyboard0Ops.performAll fold_left]. apply IH.
  destruct c as [key|key|key]; cbn [Keyboard0Ops.perform].
  - now apply down0_unmodified.
  - now apply up0_unmodified.
  - unfold Keyboard0Ops.press.
    pose proof (down0_unmodified k key Hk) as Hd.
    destruct (Keyboard0.down GetKeyboardLayout Do key k) as [k1 [e|]]; cbn [fst] in *;
      [exact Hd|].
    now apply up0_unmodified.
Qed.

End EarlierRevision.

(** ** Letter codes *)

(** X21. [isKeyX] accepts exactly the 26 codes made of "Key" and one
    upper-case letter from A to Z: key names such as "a" or "A" and
    codes in lower case are not letter codes. *)
Theorem isKeyX_letters (key : string) :
  Keyboard.isKeyX key = true <->
  exists c, key = "Key" +:+ String c "" /\ (65 <= nat_of_ascii c <= 90)%nat.
Proof.
  split.
  - unfold Keyboard.isKeyX. intros H. apply bool_decide_eq_true_1 in H.
    repeat (apply elem_of_cons in H as [-> | H];
            [eexists; split; [reflexivity | cbv; lia]|]).
    now apply elem_of_nil in H.
  - intros (c & -> & Hc).
    rewrite <- (ascii_nat_embedding c).
    assert (E : (nat_of_ascii c = 65 \/ nat_of_ascii c = 66 \/ nat_of_ascii c = 67 \/
                nat_of_ascii c = 68 \/ nat_of_ascii c = 69 \/ nat_of_ascii c = 70 \/
                nat_of_ascii c = 71 \/ nat_of_ascii c = 72 \/ nat_of_ascii c = 73 \/
                nat_of_ascii c = 74 \/ nat_of_ascii c = 75 \/ nat_of_ascii c = 76 \/
                nat_of_ascii c = 77 \/ nat_of_ascii c = 78 \/ nat_of_ascii c = 79 \/
                nat_of_ascii c = 80 \/ nat_of_ascii c = 81 \/ nat_of_ascii c = 82 \/
                nat_of_ascii c = 83 \/ nat_of_ascii c = 84 \/ nat_of_ascii c = 85 \/
                nat_of_ascii c = 86 \/ nat_of_ascii c = 87 \/ nat_of_ascii c = 88 \/
                nat_of_ascii c = 89 \/ nat_of_ascii c = 90)%nat) by lia.
    repeat (destruct E as [-> | E]; [vm_compute; reflexivity|]).
    rewrite E. vm_compute. reflexivity.
Qed.

(** ** Cancellation and a match without payload look the same *)

(** X22. After events of other types only, a wait whose caller's
    context is done returns nil without an error, and so does a wait
    that sees an event of a listed type when no predicate is given or
    when the predicate rejects the payload: from the result alone the
    caller cannot tell these outcomes apart. *)
Theorem waitForEvent_nil_results (T : Type) (events : list string)
    (predicateFn : option (waiting.any T -> bool))
    (pre post : list (waiting.occurrence T)) (ev : waiting.Event T) :
  waiting.quiet events pre = true ->
  In (waiting.typ ev) events ->
  match predicateFn with Some p => p (waiting.data ev) = false | None => True end ->
  waiting.waitForEvent events predicateFn (pre ++ waiting.ctxDone :: post)
    = Some (None, None) /\
  waiting.waitForEvent events predicateFn (pre ++ waiting.emitted ev :: post)
    = Some (None, None).
Proof.
  intros Hq Hin Hp. rewrite !waitForEvent_quiet by assumption.
  split; [reflexivity|].
  apply stringSliceContains_iff in Hin.
  simpl. unfold waiting.handleEvent. rewrite Hin.
  destruct predicateFn as [p|]; [now rewrite Hp | reflexivity].
Qed.

Lemma waitForEvent_nil_results_witness :
  waiting.waitForEvent ["load"] None
    ([waiting.emitted (waiting.mkEvent "console" (Some 1%nat))]
       ++ waiting.ctxDone :: [])
    = Some (None, None) /\
  waiting.waitForEvent ["load"] None
    ([waiting.emitted (waiting.mkEvent "console" (Some 1%nat))]
       ++ waiting.emitted (waiting.mkEvent "load" (Some 7%nat)) :: [])
    = Some (None, None).
Proof.
  apply (waitForEvent_nil_results nat ["load"] None
           [waiting.emitted (waiting.mkEvent "console" (Some 1%nat))] []
           (waiting.mkEvent "load" (Some 7%nat))).
  - reflexivity.
  - simpl. left. reflexivity.
  - exact I.
Defined.
